(** * GeoDash: the [CityData] facade of [GeoDash/data/city_manager.py]

    A shallow embedding of the facade class: construction and bootstrap
    gating, [import_city_data] with its recovery branch, the
    [functools.lru_cache]-decorated read methods, the uncached radius
    search, and [close] / the context-manager protocol.

    The collaborators the facade composes ([SchemaManager],
    [CityDataImporter], the three repositories, [DatabaseManager]) live in
    other modules of the package; they enter the development as a
    [Backend] record of functions, and every statement is proved for an
    arbitrary backend. *)

From Stdlib Require Import List ZArith QArith Qcanon Ascii String Bool Arith Lia.
Import ListNotations.

Set Implicit Arguments.
Local Open Scope string_scope.
Local Open Scope list_scope.
Local Open Scope nat_scope.

(** ** Python values *)

(** Hashable argument values, taken up to Python's [==]: [lru_cache] is used
    with [typed=False], so [True], [1] and [1.0] hash and compare equal and
    are one and the same cache key component.  A number is therefore kept as
    its exact (finite) numeric value. *)
Inductive PyVal : Type :=
| VNone
| VNum (q : Qc)
| VStr (s : string).

Definition VInt (z : Z) : PyVal := VNum (Q2Qc (inject_Z z)).

Definition PyVal_eqb (a b : PyVal) : bool :=
  match a, b with
  | VNone, VNone => true
  | VNum p, VNum q => Qeq_bool p q
  | VStr s, VStr t => String.eqb s t
  | _, _ => false
  end.

(** A result row: a Python dict from field names to values. *)
Definition Record_ : Type := list (string * PyVal).

(** What the read methods return: a list of records, a record or [None],
    or a list of names. *)
Inductive RetVal : Type :=
| RRecords (l : list Record_)
| ROptRecord (o : option Record_)
| RStrings (l : list string).

Definition is_empty_result (r : RetVal) : bool :=
  match r with
  | RRecords [] | ROptRecord None | RStrings [] => true
  | _ => false
  end.

(** [get_table_info()] returns a dict; ['row_count'] may be missing from it. *)
Record TableInfo : Type := mkTableInfo {
  columns : list Record_;
  row_count : option Z
}.

(** ** Exceptions and results *)

(** Only subclasses of [Exception] are modelled: they are what the
    [except Exception] clauses of the facade catch. *)
Inductive Exn : Type :=
| Exception (cls : string) (msg : string).

Definition TypeError : Exn := Exception "TypeError" "".
Definition KeyError (k : string) : Exn := Exception "KeyError" k.

Inductive Result (A : Type) : Type :=
| Ok (a : A)
| Raise (e : Exn).
Arguments Ok {A} a.
Arguments Raise {A} e.


(** ** Calls into the collaborators *)

Inductive Component : Type :=
| CDatabaseManager (db_uri : string) (persistent : bool)
| CSchemaManager
| CCityDataImporter
| CCityRepository
| CGeoRepository
| CRegionRepository.

Inductive RepoOp : Type :=
| OpSearch (query limit country user_lat user_lng user_country : PyVal)
| OpGetById (city_id : PyVal)
| OpFindByCoordinates (lat lng radius_km : PyVal)
| OpGetCountries
| OpGetStates (country : PyVal)
| OpGetCitiesInState (state country : PyVal).

(** The call log a spy on the collaborators would record, oldest first. *)
Inductive Event : Type :=
| EvGetDataDirectory
| EvInit (c : Component)
| EvEnsureSchema
| EvGetTableInfo
| EvImportFromCsv (csv_path : option string) (batch_size : Z)
                  (download_if_missing : bool)
| EvDownload (force : bool)
| EvExecute (sql : string)
| EvRepo (op : RepoOp)
| EvDbClose.

(** The collaborators.  Each function receives a clock (the number of calls
    logged so far), so that one and the same call can fail now and succeed
    later, and the store.  Queries cannot change the store. *)
Record Backend (Store : Type) : Type := mkBackend {
  be_get_data_directory : nat -> Store -> Result string * Store;
  be_init : Component -> nat -> Store -> Result unit * Store;
  be_ensure_schema_exists : nat -> Store -> Result unit * Store;
  be_get_table_info : nat -> Store -> Result TableInfo;
  be_import_from_csv :
    option string -> Z -> bool -> nat -> Store -> Result Z * Store;
  be_download_city_data : bool -> nat -> Store -> Result string * Store;
  be_execute : string -> nat -> Store -> Result unit * Store;
  be_repo : RepoOp -> nat -> Store -> Result RetVal;
  be_db_close : nat -> Store -> Result unit * Store
}.

(** ** The [lru_cache] decorator *)

Inductive Method : Type :=
| MSearchCities
| MGetCity
| MGetCountries
| MGetStates
| MGetCitiesInState.

Definition Method_eqb (a b : Method) : bool :=
  match a, b with
  | MSearchCities, MSearchCities
  | MGetCity, MGetCity
  | MGetCountries, MGetCountries
  | MGetStates, MGetStates
  | MGetCitiesInState, MGetCitiesInState => true
  | _, _ => false
  end.

(** The [maxsize] argument of each decorator. *)
Definition maxsize (m : Method) : nat :=
  match m with
  | MSearchCities => 5000
  | MGetCity => 1000
  | MGetCountries => 1
  | MGetStates => 100
  | MGetCitiesInState => 500
  end.

(** [functools._make_key]: the positional arguments ([self] first), then,
    when keyword arguments are present, a marker object followed by each
    keyword name and value in call order. *)
Inductive KeyItem : Type :=
| KObj (id : nat)
| KMark
| KVal (v : PyVal).

Definition Key : Type := list KeyItem.

Definition KeyItem_eqb (a b : KeyItem) : bool :=
  match a, b with
  | KObj i, KObj j => Nat.eqb i j
  | KMark, KMark => true
  | KVal v, KVal u => PyVal_eqb v u
  | _, _ => false
  end.

Fixpoint Key_eqb (a b : Key) : bool :=
  match a, b with
  | [], [] => true
  | x :: a', y :: b' => KeyItem_eqb x y && Key_eqb a' b'
  | _, _ => false
  end.

Definition Kwargs : Type := list (string * PyVal).

Definition kw_items (kw : Kwargs) : Key :=
  flat_map (fun item => [KVal (VStr (fst item)); KVal (snd item)]) kw.

Definition make_key (self_id : nat) (args : list PyVal) (kw : Kwargs) : Key :=
  KObj self_id :: map KVal args ++
  match kw with
  | [] => []
  | _ :: _ => KMark :: kw_items kw
  end.

(** The cache of one decorated method: its entries, most recently used
    first. *)
Definition Cache : Type := list (Key * RetVal).

Fixpoint cache_find (k : Key) (c : Cache) : option RetVal :=
  match c with
  | [] => None
  | (k', v) :: c' => if Key_eqb k k' then Some v else cache_find k c'
  end.

Fixpoint cache_remove (k : Key) (c : Cache) : Cache :=
  match c with
  | [] => []
  | (k', v) :: c' =>
      if Key_eqb k k' then cache_remove k c' else (k', v) :: cache_remove k c'
  end.

(** A hit moves the entry to the front. *)
Definition cache_touch (k : Key) (v : RetVal) (c : Cache) : Cache :=
  (k, v) :: cache_remove k c.

(** A miss stores the new result at the front; a full cache first drops its
    oldest entry.  A key that appeared meanwhile is left alone. *)
Definition cache_store (n : nat) (k : Key) (v : RetVal) (c : Cache) : Cache :=
  match cache_find k c with
  | Some _ => c
  | None => if n <=? List.length c then (k, v) :: removelast c else (k, v) :: c
  end.

(** ** The world *)

Section Facade.

Context {Store : Type}.
Variable B : Backend Store.

(** [caches] holds the class-level cache of each decorated method (shared by
    all instances); [uses] is the history of the keys of the calls that
    returned, most recent first; [environ] is the value of
    [GUNICORN_WORKER_ID] in the process environment; [next_id] numbers the
    objects allocated so far. *)
Record World : Type := mkWorld {
  store : Store;
  trace : list Event;
  caches : Method -> Cache;
  uses : Method -> list Key;
  environ : option string;
  next_id : nat
}.

Definition M (A : Type) : Type := World -> Result A * World.

Definition ret {A} (a : A) : M A := fun w => (Ok a, w).

Definition raise {A} (e : Exn) : M A := fun w => (Raise e, w).

Definition bind {A C} (m : M A) (f : A -> M C) : M C :=
  fun w =>
    match m w with
    | (Ok a, w') => f a w'
    | (Raise e, w') => (Raise e, w')
    end.

(** [try: m except Exception as e: h e] *)
Definition try_except {A} (m : M A) (h : Exn -> M A) : M A :=
  fun w =>
    match m w with
    | (Ok a, w') => (Ok a, w')
    | (Raise e, w') => h e w'
    end.

Notation "x <- m ;; f" := (bind m (fun x => f))
  (at level 61, m at next level, right associativity).
Notation "m ;;; f" := (bind m (fun _ => f))
  (at level 61, right associativity).

Definition log_event (ev : Event) (w : World) : World :=
  {| store := store w; trace := trace w ++ [ev]; caches := caches w;
     uses := uses w; environ := environ w; next_id := next_id w |}.

Definition set_store (s : Store) (w : World) : World :=
  {| store := s; trace := trace w; caches := caches w;
     uses := uses w; environ := environ w; next_id := next_id w |}.

(** A call that may change the store. *)
Definition ext {A} (ev : Event) (f : nat -> Store -> Result A * Store) : M A :=
  fun w =>
    let (r, s) := f (List.length (trace w)) (store w) in
    (r, log_event ev (set_store s w)).

(** A query. *)
Definition ext_ro {A} (ev : Event) (f : nat -> Store -> Result A) : M A :=
  fun w => (f (List.length (trace w)) (store w), log_event ev w).

(** ** The facade instance *)

(** The attributes [close] inspects with [hasattr]: [None] is an attribute
    that is not set (or, for [db_manager], one that is falsy). *)
Record CityData : Type := mkCityData {
  self_id : nat;
  db_manager : option (string * bool);
  persistent : option bool
}.

Definition get_table_info (self : CityData) : M TableInfo :=
  ext_ro EvGetTableInfo (be_get_table_info B).

(** [self.data_importer.import_from_csv(csv_path, batch_size,
    download_if_missing)] *)
Definition import_from_csv (csv_path : option string) (batch_size : Z)
    (download_if_missing : bool) : M Z :=
  ext (EvImportFromCsv csv_path batch_size download_if_missing)
      (be_import_from_csv B csv_path batch_size download_if_missing).

Definition download_city_data (force : bool) : M string :=
  ext (EvDownload force) (be_download_city_data B force).

(** [with self.db_manager.cursor() as cursor: cursor.execute(sql)] *)
Definition execute (self : CityData) (sql : string) : M unit :=
  ext (EvExecute sql) (be_execute B sql).

Definition DELETE_SQL : string := "DELETE FROM city_data".

(** [info.get('row_count', 0)] *)
Definition dict_get_row_count (info : TableInfo) : Z :=
  match row_count info with Some c => c | None => 0%Z end.

(** The body of the outer [try] of [import_city_data]. *)
Definition import_try (self : CityData) (csv_path : option string)
    (batch_size : Z) : M bool :=
  info <- get_table_info self ;;
  let count := dict_get_row_count info in
  if (count >? 0)%Z then ret true
  else
    imported <- import_from_csv csv_path batch_size true ;;
    ret (imported >? 0)%Z.

(** The body of the inner [try], entered when no path was given. *)
Definition import_retry (self : CityData) (batch_size : Z) : M bool :=
  csv_path <- download_city_data true ;;
  execute self DELETE_SQL ;;;
  imported <- import_from_csv (Some csv_path) batch_size false ;;
  ret (imported >? 0)%Z.

Definition import_city_data (self : CityData) (csv_path : option string)
    (batch_size : Z) : M bool :=
  try_except
    (import_try self csv_path batch_size)
    (fun e =>
       match csv_path with
       | None =>
           try_except (import_retry self batch_size)
                      (fun download_err => ret false)
       | Some _ => ret false
       end).

(** ** Construction *)

Fixpoint ends_with_slash (s : string) : bool :=
  match s with
  | EmptyString => false
  | String c EmptyString => Ascii.eqb c "/"%char
  | String _ s' => ends_with_slash s'
  end.

(** [os.path.join(a, b)] for a relative [b]. *)
Definition os_path_join (a b : string) : string :=
  if String.eqb a "" then b
  else if ends_with_slash a then (a ++ b)%string
  else (a ++ "/" ++ b)%string.

Definition alloc : M nat :=
  fun w =>
    (Ok (next_id w),
     {| store := store w; trace := trace w; caches := caches w;
        uses := uses w; environ := environ w; next_id := S (next_id w) |}).

(** [os.environ.get('GUNICORN_WORKER_ID', 'standalone')] *)
Definition getenv_worker_id : M string :=
  fun w =>
    (Ok (match environ w with Some v => v | None => "standalone" end), w).

Definition init_component (c : Component) : M unit :=
  ext (EvInit c) (be_init B c).

Definition DEFAULT_BATCH_SIZE : Z := 5000%Z.

(** [db_uri], or the default SQLite file in the data directory. *)
Definition resolve_db_uri (db_uri : option string) : M string :=
  match db_uri with
  | Some uri => ret uri
  | None =>
      data_dir <- ext EvGetDataDirectory (be_get_data_directory B) ;;
      ret ("sqlite:///" ++ os_path_join data_dir "cities.db")%string
  end.

(** The first part of [__init__]: the managers and the repositories.  It
    yields the instance as it is at that point, [persistent] not yet set,
    and the worker identifier read on the way. *)
Definition setup (db_uri : option string) (persistent_flag : bool)
  : M (CityData * string) :=
  id <- alloc ;;
  db_uri <- resolve_db_uri db_uri ;;
  worker_id <- getenv_worker_id ;;
  init_component (CDatabaseManager db_uri persistent_flag) ;;;
  init_component CSchemaManager ;;;
  init_component CCityDataImporter ;;;
  init_component CCityRepository ;;;
  init_component CGeoRepository ;;;
  init_component CRegionRepository ;;;
  ret (mkCityData id (Some (db_uri, persistent_flag)) None, worker_id).

(** The body of the [try] of [__init__]. *)
Definition bootstrap_check (self : CityData) : M unit :=
  info <- get_table_info self ;;
  count <- match row_count info with
           | Some c => ret c
           | None => raise (KeyError "row_count")
           end ;;
  if (count =? 0)%Z
  then import_city_data self None DEFAULT_BATCH_SIZE ;;; ret tt
  else ret tt.

(** [self.schema_manager.ensure_schema_exists()] *)
Definition ensure_schema_exists (self : CityData) : M unit :=
  ext EvEnsureSchema (be_ensure_schema_exists B).

(** The [if not is_worker] block of [__init__]. *)
Definition bootstrap (self : CityData) : M unit :=
  ensure_schema_exists self ;;;
  try_except
    (bootstrap_check self)
    (fun e =>
       try_except
         (import_city_data self None DEFAULT_BATCH_SIZE ;;; ret tt)
         (fun import_err => ret tt)).

Definition set_persistent (self : CityData) (persistent_flag : bool)
  : CityData :=
  mkCityData (self_id self) (db_manager self) (Some persistent_flag).

Definition init (db_uri : option string) (persistent_flag : bool)
  : M CityData :=
  r <- setup db_uri persistent_flag ;;
  let self := fst r in
  let worker_id := snd r in
  let is_worker := negb (String.eqb worker_id "standalone") in
  (if negb is_worker then bootstrap self else ret tt) ;;;
  ret (set_persistent self persistent_flag).

(** ** Read methods *)

Definition set_cache (m : Method) (c : Cache) (w : World) : World :=
  {| store := store w; trace := trace w;
     caches := fun m' => if Method_eqb m m' then c else caches w m';
     uses := uses w; environ := environ w; next_id := next_id w |}.

Definition record_use (m : Method) (k : Key) (w : World) : World :=
  {| store := store w; trace := trace w; caches := caches w;
     uses := fun m' => if Method_eqb m m' then k :: uses w m' else uses w m';
     environ := environ w; next_id := next_id w |}.

(** The wrapper [lru_cache(maxsize)] puts around a function: look the key
    up; on a hit return the stored result and make the entry the most recent
    one; on a miss call the function and, when it returns, store the result.
    An exception leaves the cache as it was. *)
Definition lru_cache_wrapper (m : Method) (key : Key)
    (user_function : M RetVal) : M RetVal :=
  fun w =>
    match cache_find key (caches w m) with
    | Some v =>
        (Ok v, record_use m key (set_cache m (cache_touch key v (caches w m)) w))
    | None =>
        match user_function w with
        | (Ok v, w') =>
            (Ok v,
             record_use m key
               (set_cache m (cache_store (maxsize m) key v (caches w' m)) w'))
        | (Raise e, w') => (Raise e, w')
        end
    end.

(** The parameters after [self], with their defaults. *)
Definition Signature : Type := list (string * option PyVal).

Definition signature (m : Method) : Signature :=
  match m with
  | MSearchCities =>
      [("query", None); ("limit", Some (VInt 10)); ("country", Some VNone);
       ("user_lat", Some VNone); ("user_lng", Some VNone);
       ("user_country", Some VNone)]
  | MGetCity => [("city_id", None)]
  | MGetCountries => []
  | MGetStates => [("country", None)]
  | MGetCitiesInState => [("state", None); ("country", None)]
  end.

Fixpoint kw_lookup (name : string) (kw : Kwargs) : option PyVal :=
  match kw with
  | [] => None
  | (n, v) :: kw' => if String.eqb name n then Some v else kw_lookup name kw'
  end.

Definition kw_mem (name : string) (kw : Kwargs) : bool :=
  match kw_lookup name kw with Some _ => true | None => false end.

(** Every keyword names a parameter, and names it once. *)
Fixpoint kw_names_ok (ps : Signature) (kw : Kwargs) : bool :=
  match kw with
  | [] => true
  | (n, _) :: kw' =>
      existsb (fun p => String.eqb n (fst p)) ps
      && negb (kw_mem n kw') && kw_names_ok ps kw'
  end.

Fixpoint bind_params (ps : Signature) (args : list PyVal) (kw : Kwargs)
  : option (list PyVal) :=
  match ps with
  | [] => match args with [] => Some [] | _ :: _ => None end
  | (name, default) :: ps' =>
      match args with
      | a :: args' =>
          if kw_mem name kw then None
          else option_map (cons a) (bind_params ps' args' kw)
      | [] =>
          match kw_lookup name kw, default with
          | Some v, _ => option_map (cons v) (bind_params ps' [] kw)
          | None, Some d => option_map (cons d) (bind_params ps' [] kw)
          | None, None => None
          end
      end
  end.

(** Python's binding of the arguments of a call to the parameters; [None]
    is the [TypeError] of a call that does not fit the signature. *)
Definition bind_args (ps : Signature) (args : list PyVal) (kw : Kwargs)
  : option (list PyVal) :=
  if kw_names_ok ps kw then bind_params ps args kw else None.

Definition repo (op : RepoOp) : M RetVal :=
  ext_ro (EvRepo op) (be_repo B op).

Definition search_cities_body (self : CityData)
    (query limit country user_lat user_lng user_country : PyVal) : M RetVal :=
  repo (OpSearch query limit country user_lat user_lng user_country).

Definition get_city_body (self : CityData) (city_id : PyVal) : M RetVal :=
  repo (OpGetById city_id).

Definition get_countries_body (self : CityData) : M RetVal :=
  repo OpGetCountries.

Definition get_states_body (self : CityData) (country : PyVal) : M RetVal :=
  repo (OpGetStates country).

Definition get_cities_in_state_body (self : CityData) (state country : PyVal)
  : M RetVal :=
  repo (OpGetCitiesInState state country).

(** The repository call a method makes for bound arguments. *)
Definition method_op (m : Method) (bound : list PyVal) : option RepoOp :=
  match m, bound with
  | MSearchCities, [q; l; c; la; ln; uc] => Some (OpSearch q l c la ln uc)
  | MGetCity, [i] => Some (OpGetById i)
  | MGetCountries, [] => Some OpGetCountries
  | MGetStates, [c] => Some (OpGetStates c)
  | MGetCitiesInState, [s; c] => Some (OpGetCitiesInState s c)
  | _, _ => None
  end.

Definition method_body (m : Method) (self : CityData) (bound : list PyVal)
  : M RetVal :=
  match m, bound with
  | MSearchCities, [q; l; c; la; ln; uc] =>
      search_cities_body self q l c la ln uc
  | MGetCity, [i] => get_city_body self i
  | MGetCountries, [] => get_countries_body self
  | MGetStates, [c] => get_states_body self c
  | MGetCitiesInState, [s; c] => get_cities_in_state_body self s c
  | _, _ => raise TypeError
  end.

(** Calling the undecorated method with the arguments as passed. *)
Definition call_method (m : Method) (self : CityData) (args : list PyVal)
    (kw : Kwargs) : M RetVal :=
  match bind_args (signature m) args kw with
  | Some bound => method_body m self bound
  | None => raise TypeError
  end.

(** The decorated method: the key is made from the arguments as passed,
    before they are bound to the parameters. *)
Definition cached (m : Method) (self : CityData) (args : list PyVal)
    (kw : Kwargs) : M RetVal :=
  lru_cache_wrapper m (make_key (self_id self) args kw)
                    (call_method m self args kw).

Definition search_cities := cached MSearchCities.
Definition get_city := cached MGetCity.
Definition get_countries := cached MGetCountries.
Definition get_states := cached MGetStates.
Definition get_cities_in_state := cached MGetCitiesInState.

Definition DEFAULT_RADIUS_KM : PyVal := VInt 10.

(** Not decorated. *)
Definition get_cities_by_coordinates (self : CityData)
    (lat lng radius_km : PyVal) : M RetVal :=
  repo (OpFindByCoordinates lat lng radius_km).

(** ** Release *)

Definition close (self : CityData) : M unit :=
  match db_manager self with
  | Some _ =>
      match persistent self with
      | Some true => ret tt
      | Some false | None => ext EvDbClose (be_db_close B)
      end
  | None => ret tt
  end.

Definition enter (self : CityData) : M CityData := ret self.

(** [__exit__] ignores the exception it is told about and returns [None]. *)
Definition exit_ (self : CityData) (exc : option Exn) : M unit := close self.

(** [with self as x: body x].  [__exit__] returns a falsy value, so an
    exception of the body goes on after it, unless [__exit__] raises
    itself. *)
Definition with_block {A} (self : CityData) (body : CityData -> M A) : M A :=
  fun w =>
    match enter self w with
    | (Raise e, w0) => (Raise e, w0)
    | (Ok x, w0) =>
        match body x w0 with
        | (Ok a, w1) =>
            match exit_ self None w1 with
            | (Ok _, w2) => (Ok a, w2)
            | (Raise e', w2) => (Raise e', w2)
            end
        | (Raise e, w1) =>
            match exit_ self (Some e) w1 with
            | (Ok _, w2) => (Raise e, w2)
            | (Raise e', w2) => (Raise e', w2)
            end
        end
    end.

(** ** Call sequences *)

Inductive ApiCall : Type :=
| CallInit (db_uri : option string) (persistent_flag : bool)
| CallImport (self : CityData) (csv_path : option string) (batch_size : Z)
| CallCached (m : Method) (self : CityData) (args : list PyVal) (kw : Kwargs)
| CallCoordinates (self : CityData) (lat lng radius_km : PyVal)
| CallTableInfo (self : CityData)
| CallClose (self : CityData)
| CallExit (self : CityData) (exc : option Exn).

Definition exec (c : ApiCall) (w : World) : World :=
  match c with
  | CallInit db_uri p => snd (init db_uri p w)
  | CallImport self csv_path batch_size =>
      snd (import_city_data self csv_path batch_size w)
  | CallCached m self args kw => snd (cached m self args kw w)
  | CallCoordinates self lat lng r =>
      snd (get_cities_by_coordinates self lat lng r w)
  | CallTableInfo self => snd (get_table_info self w)
  | CallClose self => snd (close self w)
  | CallExit self exc => snd (exit_ self exc w)
  end.

Definition run (calls : list ApiCall) (w : World) : World :=
  fold_left (fun w c => exec c w) calls w.

(** A process that has made no call yet. *)
Definition initial_world (s : Store) (env : option string) : World :=
  {| store := s; trace := []; caches := fun _ => []; uses := fun _ => [];
     environ := env; next_id := 0 |}.

End Facade.

Arguments World Store : clear implicits.
Arguments M Store A : clear implicits.

(** ** A small backend to run the facade on *)

Module Demo.

(** A table of rows, a CSV source that may be unreadable, a network that may
    be down, and the connection handle. *)
Record DemoStore : Type := mkDemo {
  rows : list Record_;
  source_rows : list Record_;
  csv_ok : bool;
  network_up : bool;
  handle_open : bool
}.

Definition with_rows (r : list Record_) (s : DemoStore) : DemoStore :=
  mkDemo r (source_rows s) (csv_ok s) (network_up s) (handle_open s).

Definition with_csv_ok (b : bool) (s : DemoStore) : DemoStore :=
  mkDemo (rows s) (source_rows s) b (network_up s) (handle_open s).

Definition with_handle (b : bool) (s : DemoStore) : DemoStore :=
  mkDemo (rows s) (source_rows s) (csv_ok s) (network_up s) b.

Definition field (name : string) (r : Record_) : PyVal :=
  match kw_lookup name r with Some v => v | None => VNone end.

Definition has (name : string) (v : PyVal) (r : Record_) : bool :=
  PyVal_eqb (field name r) v.

Definition text (v : PyVal) : list string :=
  match v with VStr s => [s] | _ => [] end.

Definition query (op : RepoOp) (s : DemoStore) : RetVal :=
  match op with
  | OpSearch q _ _ _ _ _ => RRecords (filter (has "name" q) (rows s))
  | OpGetById i => ROptRecord (find (has "id" i) (rows s))
  | OpFindByCoordinates lat lng _ =>
      RRecords (filter (fun r => has "lat" lat r && has "lng" lng r) (rows s))
  | OpGetCountries =>
      RStrings (flat_map (fun r => text (field "country" r)) (rows s))
  | OpGetStates c =>
      RStrings (flat_map (fun r => text (field "state" r))
                         (filter (has "country" c) (rows s)))
  | OpGetCitiesInState st c =>
      RRecords (filter (fun r => has "state" st r && has "country" c r)
                       (rows s))
  end.

Definition backend : Backend DemoStore :=
  {| be_get_data_directory := fun _ s => (Ok "/var/geodash", s);
     be_init := fun c _ s =>
       (Ok tt,
        match c with
        | CDatabaseManager _ _ => with_handle true s
        | _ => s
        end);
     be_ensure_schema_exists := fun _ s => (Ok tt, s);
     be_get_table_info := fun _ s =>
       Ok (mkTableInfo [] (Some (Z.of_nat (List.length (rows s)))));
     be_import_from_csv := fun _ _ _ _ s =>
       if csv_ok s
       then (Ok (Z.of_nat (List.length (source_rows s))),
             with_rows (rows s ++ source_rows s) s)
       else (Raise (Exception "DataImportError" "unreadable city data"), s);
     be_download_city_data := fun _ _ s =>
       if network_up s
       then (Ok "/var/geodash/cities.csv", with_csv_ok true s)
       else (Raise (Exception "ConnectionError" "network unreachable"), s);
     be_execute := fun sql _ s =>
       (Ok tt, if String.eqb sql DELETE_SQL then with_rows [] s else s);
     be_repo := fun op _ s => Ok (query op s);
     be_db_close := fun _ s => (Ok tt, with_handle false s) |}.

Definition paris : Record_ :=
  [("id", VInt 1); ("name", VStr "Paris"); ("country", VStr "France");
   ("state", VStr "Ile-de-France")].

Definition geneva : Record_ :=
  [("id", VInt 2); ("name", VStr "Geneva"); ("country", VStr "Switzerland");
   ("state", VStr "Geneva")].

(** A populated table. *)
Definition populated_store : DemoStore :=
  mkDemo [paris; geneva] [paris; geneva] true true true.

(** An empty table with a readable source. *)
Definition empty_store : DemoStore :=
  mkDemo [] [paris; geneva] true true false.

(** An empty table, an unreadable source and no network. *)
Definition offline_store : DemoStore :=
  mkDemo [] [paris; geneva] false false false.

(** An empty table, an unreadable local source, but a network to fetch a
    fresh copy from. *)
Definition stale_store : DemoStore :=
  mkDemo [] [paris; geneva] false true false.

Definition world (s : DemoStore) (env : option string) : World DemoStore :=
  initial_world s env.

Definition facade : CityData :=
  mkCityData 0 (Some ("sqlite:///cities.db", false)) (Some false).

End Demo.

(** Worlds of a process that has made no call yet, over these stores. *)

Definition populated_world : World Demo.DemoStore :=
  Demo.world Demo.populated_store None.

Definition empty_world : World Demo.DemoStore :=
  Demo.world Demo.empty_store None.

Definition offline_world : World Demo.DemoStore :=
  Demo.world Demo.offline_store None.

Definition stale_world : World Demo.DemoStore :=
  Demo.world Demo.stale_store None.


(** ** Backends with a fault *)

(** The [Demo] backend with one collaborator changed at a time. *)
Module Faulty.

(** The repositories cannot read at the very first call of the process
    (the database is still locked), and can afterwards. *)
Definition locked : Backend Demo.DemoStore :=
  {| be_get_data_directory := be_get_data_directory Demo.backend;
     be_init := be_init Demo.backend;
     be_ensure_schema_exists := be_ensure_schema_exists Demo.backend;
     be_get_table_info := be_get_table_info Demo.backend;
     be_import_from_csv := be_import_from_csv Demo.backend;
     be_download_city_data := be_download_city_data Demo.backend;
     be_execute := be_execute Demo.backend;
     be_repo := fun op t s =>
       if t =? 0
       then Raise (Exception "OperationalError" "database is locked")
       else be_repo Demo.backend op t s;
     be_db_close := be_db_close Demo.backend |}.

(** A schema coordinator whose table information has no ['row_count']. *)
Definition legacy : Backend Demo.DemoStore :=
  {| be_get_data_directory := be_get_data_directory Demo.backend;
     be_init := be_init Demo.backend;
     be_ensure_schema_exists := be_ensure_schema_exists Demo.backend;
     be_get_table_info := fun _ _ => Ok (mkTableInfo [] None);
     be_import_from_csv := be_import_from_csv Demo.backend;
     be_download_city_data := be_download_city_data Demo.backend;
     be_execute := be_execute Demo.backend;
     be_repo := be_repo Demo.backend;
     be_db_close := be_db_close Demo.backend |}.

(** A database on which the schema cannot be created. *)
Definition readonly : Backend Demo.DemoStore :=
  {| be_get_data_directory := be_get_data_directory Demo.backend;
     be_init := be_init Demo.backend;
     be_ensure_schema_exists := fun _ s =>
       (Raise (Exception "OperationalError" "attempt to write a readonly database"),
        s);
     be_get_table_info := be_get_table_info Demo.backend;
     be_import_from_csv := be_import_from_csv Demo.backend;
     be_download_city_data := be_download_city_data Demo.backend;
     be_execute := be_execute Demo.backend;
     be_repo := be_repo Demo.backend;
     be_db_close := be_db_close Demo.backend |}.

(** A connection handle that cannot be closed. *)
Definition stuck : Backend Demo.DemoStore :=
  {| be_get_data_directory := be_get_data_directory Demo.backend;
     be_init := be_init Demo.backend;
     be_ensure_schema_exists := be_ensure_schema_exists Demo.backend;
     be_get_table_info := be_get_table_info Demo.backend;
     be_import_from_csv := be_import_from_csv Demo.backend;
     be_download_city_data := be_download_city_data Demo.backend;
     be_execute := be_execute Demo.backend;
     be_repo := be_repo Demo.backend;
     be_db_close := fun _ s =>
       (Raise (Exception "OperationalError" "cannot close the connection"), s) |}.



(** A table that holds a row of an earlier, interrupted import, next to an
    unreadable local source and a network to fetch a fresh copy from. *)
Definition leftover_store : Demo.DemoStore :=
  Demo.mkDemo [Demo.paris] [Demo.paris; Demo.geneva] false true true.

End Faulty.

(** * Utilities ([GeoDash/utils/__init__.py]) *)

(** ** [safe_get] *)

(** The values [safe_get] walks through: dictionaries with string keys, and
    everything else, which it never looks into. *)
Local Unset Elimination Schemes.

Inductive Json : Type :=
| JAtom (v : PyVal)
| JList (l : list Json)
| JDict (items : list (string * Json)).

Local Set Elimination Schemes.

(** [key in value] and [value[key]] *)
Fixpoint dict_get (key : string) (items : list (string * Json))
  : option Json :=
  match items with
  | [] => None
  | (k, v) :: items' => if String.eqb key k then Some v else dict_get key items'
  end.

(** [s.split(sep)] for a one-character separator: the pieces between the
    separators, one at least. *)
Fixpoint split_on (sep : ascii) (s : string) : list string :=
  match s with
  | EmptyString => [EmptyString]
  | String c s' =>
      if Ascii.eqb c sep then EmptyString :: split_on sep s'
      else
        match split_on sep s' with
        | piece :: pieces => String c piece :: pieces
        | [] => [String c EmptyString]
        end
  end.

(** The loop of [safe_get] over the keys of the path. *)
Fixpoint safe_get_walk (keys : list string) (value default : Json) : Json :=
  match keys with
  | [] => value
  | key :: keys' =>
      match value with
      | JDict items =>
          match dict_get key items with
          | Some v => safe_get_walk keys' v default
          | None => default
          end
      | JAtom _ | JList _ => default
      end
  end.

(** [not data or not isinstance(data, dict)] holds of everything but a
    dictionary with an entry. *)
Definition safe_get (data : Json) (key_path : string) (default : Json)
  : Json :=
  match data with
  | JDict (_ :: _) => safe_get_walk (split_on "." key_path) data default
  | JDict [] | JAtom _ | JList _ => default
  end.

(** ** [log_error_with_github_info] *)

(** [urllib.parse.quote(s)] with its default [safe='/'], on the UTF-8 bytes
    of [s]: letters, digits and [_.-~/] stay, every other byte becomes [%]
    and two upper-case hexadecimal digits. *)
Definition is_always_safe (c : ascii) : bool :=
  let n := nat_of_ascii c in
  ((65 <=? n) && (n <=? 90)) || ((97 <=? n) && (n <=? 122))
  || ((48 <=? n) && (n <=? 57))
  || Ascii.eqb c "_" || Ascii.eqb c "." || Ascii.eqb c "-"
  || Ascii.eqb c "~".

Definition hex_digit (n : nat) : ascii :=
  match String.get n "0123456789ABCDEF" with
  | Some c => c
  | None => "0"%char
  end.

Definition quote_byte (c : ascii) : string :=
  if is_always_safe c || Ascii.eqb c "/" then String c EmptyString
  else
    String "%" (String (hex_digit (nat_of_ascii c / 16))
                  (String (hex_digit (nat_of_ascii c mod 16)) EmptyString)).

Fixpoint quote (s : string) : string :=
  match s with
  | EmptyString => EmptyString
  | String c s' => (quote_byte c ++ quote s')%string
  end.

Definition GITHUB_REPO_URL : string := "https://github.com/cryptekbits/GeoDash".

Definition GITHUB_ISSUES_URL : string := (GITHUB_REPO_URL ++ "/issues")%string.

Definition nl : string := String (ascii_of_nat 10) EmptyString.

(** [if additional_context:] *)
Definition truthy (s : option string) : bool :=
  match s with
  | Some t => negb (String.eqb t "")
  | None => false
  end.

Definition issue_title (class_name : string)
    (additional_context : option string) : string :=
  let issue_title := ("Error: " ++ class_name)%string in
  match additional_context with
  | Some ctx =>
      if truthy additional_context then (ctx ++ ": " ++ issue_title)%string
      else issue_title
  | None => issue_title
  end.

Definition issue_body (class_name error_message error_traceback : string)
  : string :=
  (nl ++ "**Error Details**" ++ nl
   ++ "- Error Type: " ++ class_name ++ nl
   ++ "- Error Message: " ++ error_message ++ nl
   ++ nl
   ++ "**Traceback**" ++ nl
   ++ "```" ++ nl
   ++ error_traceback ++ nl
   ++ "```" ++ nl
   ++ nl
   ++ "<!-- Please add any additional information about what you were doing when the error occurred -->"
   ++ nl)%string.

Definition issue_url (class_name error_message error_traceback : string)
    (additional_context : option string) : string :=
  (GITHUB_ISSUES_URL ++ "/new?title="
   ++ quote (issue_title class_name additional_context)
   ++ "&body="
   ++ quote (issue_body class_name error_message error_traceback))%string.

(** What the function logs and what it prints to [stderr]. *)
Inductive LogRecord : Type :=
| LogError (msg : string)
| LogDebug (msg : string).

Definition log_error_with_github_info
    (class_name error_message error_traceback : string)
    (additional_context : option string) : list LogRecord * string :=
  let first :=
    match additional_context with
    | Some ctx =>
        if truthy additional_context
        then LogError (ctx ++ ": " ++ error_message)%string
        else LogError ("Error: " ++ error_message)%string
    | None => LogError ("Error: " ++ error_message)%string
    end in
  let github_message :=
    (nl ++ "=== BLOCKING ERROR ===" ++ nl
     ++ "This error is preventing normal operation." ++ nl
     ++ "Please report this issue to the developer (Manan Ramnani - cryptekbits) by creating a GitHub issue:"
     ++ nl
     ++ issue_url class_name error_message error_traceback additional_context
     ++ nl
     ++ "===========================" ++ nl)%string in
  ([first; LogDebug ("Traceback: " ++ error_traceback)%string],
   (github_message ++ nl)%string).

(** ** Vocabulary for the utilities *)

(** The value a list of keys leads to inside nested dictionaries, if every
    key on the way is there. *)
Fixpoint resolve (keys : list string) (value : Json) : option Json :=
  match keys with
  | [] => Some value
  | key :: keys' =>
      match value with
      | JDict items =>
          match dict_get key items with
          | Some v => resolve keys' v
          | None => None
          end
      | JAtom _ | JList _ => None
      end
  end.

Fixpoint string_forall (P : ascii -> bool) (s : string) : bool :=
  match s with
  | EmptyString => true
  | String c s' => P c && string_forall P s'
  end.

Definition no_dot (s : string) : bool :=
  string_forall (fun c => negb (Ascii.eqb c ".")) s.

Fixpoint count_char (c : ascii) (s : string) : nat :=
  match s with
  | EmptyString => 0
  | String c' s' => (if Ascii.eqb c' c then 1 else 0) + count_char c s'
  end.

(** The characters [quote] can produce. *)
Definition url_char (c : ascii) : bool :=
  is_always_safe c || Ascii.eqb c "/" || Ascii.eqb c "%".

(** * Properties *)

(** ** Vocabulary *)

Section Vocabulary.

Context {Store : Type} (B : Backend Store).

(** The schema coordinator reports a positive row count on this store. *)
Definition populated (s : Store) : Prop :=
  forall t, exists info n,
    be_get_table_info B t s = Ok info /\ row_count info = Some n /\ (0 < n)%Z.

(** The process is a worker: [GUNICORN_WORKER_ID] is set, to something else
    than ['standalone']. *)
Definition is_worker_env (env : option string) : bool :=
  match env with
  | Some v => negb (String.eqb v "standalone")
  | None => false
  end.

Definition is_setup_event (ev : Event) : bool :=
  match ev with
  | EvGetDataDirectory | EvInit _ => true
  | _ => false
  end.

(** What a step of the facade leaves alone: the environment, the caches and
    their history; the log only grows, by events that satisfy [P]. *)
Definition frame (P : Event -> bool) (w w' : World Store) : Prop :=
  environ w' = environ w /\ caches w' = caches w /\ uses w' = uses w
  /\ next_id w <= next_id w'
  /\ exists evs, trace w' = trace w ++ evs /\ forallb P evs = true.

Definition preserves (P : Event -> bool) {A} (m : M Store A) : Prop :=
  forall w, frame P w (snd (m w)).

(** The keys of a cache, most recently used first. *)
Definition cache_keys (c : Cache) : list Key := map fst c.

Definition key_remove (k : Key) (l : list Key) : list Key :=
  filter (fun k' => negb (Key_eqb k k')) l.

(** The distinct keys of a history of uses, each at its latest use. *)
Fixpoint recent (us : list Key) : list Key :=
  match us with
  | [] => []
  | k :: us' => k :: key_remove k (recent us')
  end.

(** The instance a key belongs to. *)
Definition key_owner (k : Key) : option nat :=
  match k with
  | KObj i :: _ => Some i
  | _ => None
  end.

Definition is_import_event (ev : Event) : bool :=
  match ev with
  | EvGetTableInfo | EvImportFromCsv _ _ _ | EvDownload _ | EvExecute _ => true
  | _ => false
  end.

(** What [make_key] appends for the keyword arguments. *)
Definition kw_tail (kw : Kwargs) : Key :=
  match kw with
  | [] => []
  | _ :: _ => KMark :: kw_items kw
  end.

Definition is_repo_event (ev : Event) : bool :=
  match ev with
  | EvRepo _ => true
  | _ => false
  end.

(** Each cache holds the keys used most recently, as many as fit, in the
    order of their latest use. *)
Definition lru_inv (w : World Store) : Prop :=
  forall m,
    cache_keys (caches w m) = firstn (maxsize m) (recent (uses w m)).

Definition any_event (ev : Event) : bool := true.


(** No cache entry belongs to instance [i]. *)
Definition unused_id (i : nat) (w : World Store) : Prop :=
  forall m k v, In (k, v) (caches w m) -> key_owner k <> Some i.

(** Ingestion fails entirely on store [s]: every import and every download
    raises, and writes nothing. *)
Definition ingestion_fails (s : Store) : Prop :=
  (forall p b d t, exists e, be_import_from_csv B p b d t s = (Raise e, s))
  /\ (forall f t, exists e, be_download_city_data B f t s = (Raise e, s)).

(** From clock [t0] on, the schema coordinator reports no row on store [s]
    and the repositories find nothing there. *)
Definition reads_empty (s : Store) (t0 : nat) : Prop :=
  (forall t, t0 <= t ->
     exists info,
       be_get_table_info B t s = Ok info /\ row_count info = Some 0%Z)
  /\ (forall op t, t0 <= t ->
        exists r, be_repo B op t s = Ok r /\ is_empty_result r = true).

(** A world in which the facade [self] sits on store [s], at clock [t0] or
    later, with nothing but empty results cached for it. *)
Definition serves_empty (self : CityData) (s : Store) (t0 : nat)
    (w : World Store) : Prop :=
  store w = s
  /\ t0 <= List.length (trace w)
  /\ forall m k v,
       In (k, v) (caches w m) -> key_owner k = Some (self_id self) ->
       is_empty_result v = true.

(** The events logged between two worlds. *)
Definition new_events (w w' : World Store) : list Event :=
  skipn (List.length (trace w)) (trace w').

Definition is_write (ev : Event) : bool :=
  match ev with
  | EvImportFromCsv _ _ _ | EvDownload _ | EvExecute _ => true
  | _ => false
  end.

(** Every cached key is the key of a call that fits the signature of its
    method. *)
Definition keys_well_formed (w : World Store) : Prop :=
  forall m k v,
    In (k, v) (caches w m) ->
    exists id args kw bound,
      k = make_key id args kw
      /\ bind_args (signature m) args kw = Some bound.

(** The call is a decorated read of method [m]. *)
Definition reads_method (m : Method) (c : ApiCall) : bool :=
  match c with
  | CallCached m' _ _ _ => Method_eqb m m'
  | _ => false
  end.

(** The shapes the log of one [import_city_data] call can take: the
    row-count query, perhaps the first import, perhaps the recovery, which
    is the forced download, perhaps the delete, perhaps the retry. *)
Definition import_log_shape (csv_path : option string) (batch_size : Z)
    (evs : list Event) : Prop :=
  exists first recovery,
    evs = EvGetTableInfo :: first ++ recovery
    /\ (first = [] \/ first = [EvImportFromCsv csv_path batch_size true])
    /\ (recovery = []
        \/ csv_path = None
           /\ (recovery = [EvDownload true]
               \/ recovery = [EvDownload true; EvExecute DELETE_SQL]
               \/ exists p,
                    recovery =
                    [EvDownload true; EvExecute DELETE_SQL;
                     EvImportFromCsv (Some p) batch_size false])).

Definition is_init_event (ev : Event) : bool :=
  match ev with
  | EvInit _ => true
  | _ => false
  end.

(** The managers and repositories, in the order [__init__] creates them. *)
Definition component_events (uri : string) (persistent_flag : bool)
  : list Event :=
  [EvInit (CDatabaseManager uri persistent_flag); EvInit CSchemaManager;
   EvInit CCityDataImporter; EvInit CCityRepository; EvInit CGeoRepository;
   EvInit CRegionRepository].

End Vocabulary.

(** ** Monad steps *)

Ltac unfold_steps :=
  unfold import_city_data, import_try, import_retry, get_table_info,
    import_from_csv, download_city_data, execute, repo,
    try_except, bind, ret, raise, ext, ext_ro in *.

Section ImportCityData.

Context {Store : Type} (B : Backend Store).
Implicit Types (w : World Store) (self : CityData).

Lemma new_events_app w w' evs :
  trace w' = trace w ++ evs -> new_events w w' = evs.
Proof.
  unfold new_events. intros ->.
  rewrite skipn_app, skipn_all, Nat.sub_diag. reflexivity.
Qed.

Lemma get_table_info_run self w :
  get_table_info B self w =
  (be_get_table_info B (List.length (trace w)) (store w),
   log_event EvGetTableInfo w).
Proof. reflexivity. Qed.

(** The first attempt stops at the row count when it is positive. *)
Lemma import_try_populated self csv_path batch_size w info n :
  fst (get_table_info B self w) = Ok info ->
  row_count info = Some n -> (0 < n)%Z ->
  import_try B self csv_path batch_size w =
  (Ok true, log_event EvGetTableInfo w).
Proof.
  intros Hinfo Hrow Hn. unfold_steps. simpl in Hinfo.
  rewrite Hinfo. unfold dict_get_row_count. rewrite Hrow.
  destruct (n >? 0)%Z eqn:E; [reflexivity | lia].
Qed.

(** A first attempt that returns is the whole call. *)
Lemma import_city_data_try_ok self csv_path batch_size w b w1 :
  import_try B self csv_path batch_size w = (Ok b, w1) ->
  import_city_data B self csv_path batch_size w = (Ok b, w1).
Proof.
  intros H. unfold import_city_data, try_except. rewrite H. reflexivity.
Qed.

(** C3. On a store whose row count is positive, [import_city_data] returns
    [True] after the row-count query alone: no import, no download, no
    delete, and the store is the one it found; a second call does the
    same. *)
Theorem import_city_data_populated_noop self csv_path batch_size w :
  populated B (store w) ->
  let w1 := log_event EvGetTableInfo w in
  import_city_data B self csv_path batch_size w = (Ok true, w1)
  /\ store w1 = store w
  /\ new_events w w1 = [EvGetTableInfo]
  /\ (forall ev, In ev (new_events w w1) -> is_write ev = false)
  /\ forall csv_path' batch_size',
       import_city_data B self csv_path' batch_size' w1 =
       (Ok true, log_event EvGetTableInfo w1)
       /\ store (log_event EvGetTableInfo w1) = store w.
Proof.
  intros Hpop w1.
  assert (Hcall : forall p b w0, store w0 = store w ->
            import_city_data B self p b w0 =
            (Ok true, log_event EvGetTableInfo w0)).
  { intros p b w0 Hs.
    destruct (Hpop (List.length (trace w0))) as (info & n & Hi & Hr & Hn).
    apply import_city_data_try_ok.
    apply import_try_populated with (info := info) (n := n); auto.
    simpl. rewrite Hs. exact Hi. }
  assert (Hev : new_events w w1 = [EvGetTableInfo])
    by (apply new_events_app; reflexivity).
  repeat split.
  - apply Hcall. reflexivity.
  - exact Hev.
  - rewrite Hev. intros ev [<- | []]. reflexivity.
  - apply Hcall. reflexivity.
Qed.

(** C9. When the first [import_from_csv] call returns, its count decides the
    result: [True] exactly for a positive count.  A count of zero gives
    [False], and the call ends there: no download, no delete, no second
    import. *)
Theorem import_city_data_first_import_returns
    self csv_path batch_size w info imported w2 :
  fst (get_table_info B self w) = Ok info ->
  (dict_get_row_count info <= 0)%Z ->
  import_from_csv B csv_path batch_size true (log_event EvGetTableInfo w) =
    (Ok imported, w2) ->
  import_city_data B self csv_path batch_size w = (Ok (imported >? 0)%Z, w2)
  /\ ((imported >? 0)%Z = true <-> (0 < imported)%Z)
  /\ (imported = 0%Z ->
      import_city_data B self csv_path batch_size w = (Ok false, w2))
  /\ new_events w w2 =
     [EvGetTableInfo; EvImportFromCsv csv_path batch_size true].
Proof.
  intros Hinfo Hcount Himp.
  assert (Hcall : import_city_data B self csv_path batch_size w =
                  (Ok (imported >? 0)%Z, w2)).
  { apply import_city_data_try_ok.
    unfold import_try, bind. rewrite get_table_info_run in *.
    simpl in Hinfo. rewrite Hinfo.
    destruct (dict_get_row_count info >? 0)%Z eqn:E; [lia |].
    rewrite Himp. reflexivity. }
  repeat split.
  - exact Hcall.
  - lia.
  - lia.
  - intros ->. exact Hcall.
  - apply new_events_app.
    unfold import_from_csv, ext in Himp.
    destruct (be_import_from_csv B csv_path batch_size true _ _) as [r s].
    inversion Himp; subst. simpl. rewrite <- app_assoc. reflexivity.
Qed.



Lemma ext_run {A} ev (f : nat -> Store -> Result A * Store) w :
  ext ev f w =
  (fst (f (List.length (trace w)) (store w)),
   log_event ev (set_store (snd (f (List.length (trace w)) (store w))) w)).
Proof.
  unfold ext. destruct (f _ _). reflexivity.
Qed.

Lemma ext_new_events {A} ev (f : nat -> Store -> Result A * Store) w :
  trace (snd (ext ev f w)) = trace w ++ [ev].
Proof. rewrite ext_run. reflexivity. Qed.

(** A call of a collaborator is that collaborator's function, applied at the
    clock and the store of the moment; the store it leaves is the next
    one. *)
Lemma ext_backend {A} ev (f : nat -> Store -> Result A * Store) w r w' :
  ext ev f w = (r, w') ->
  f (List.length (trace w)) (store w) = (r, store w').
Proof.
  rewrite ext_run. intros H. inversion H; subst. simpl.
  destruct (f (List.length (trace w)) (store w)); reflexivity.
Qed.

(** What the recovery branch does from the world [w1] the failed first
    attempt left: a forced download first; the delete only after the
    download returned; the one retry only after the delete returned. *)
Lemma import_retry_run self batch_size w1 :
  exists b w',
    try_except (import_retry B self batch_size) (fun _ => ret false) w1 =
    (Ok b, w')
    /\ ((exists e',
           download_city_data B true w1 = (Raise e', w')
           /\ b = false
           /\ new_events w1 w' = [EvDownload true])
        \/ (exists p' wd e',
              download_city_data B true w1 = (Ok p', wd)
              /\ execute B self DELETE_SQL wd = (Raise e', w')
              /\ b = false
              /\ new_events w1 w' = [EvDownload true; EvExecute DELETE_SQL])
        \/ (exists p' wd wx r,
              download_city_data B true w1 = (Ok p', wd)
              /\ execute B self DELETE_SQL wd = (Ok tt, wx)
              /\ import_from_csv B (Some p') batch_size false wx = (r, w')
              /\ b = match r with
                     | Ok n => (n >? 0)%Z
                     | Raise _ => false
                     end
              /\ new_events w1 w' =
                 [EvDownload true; EvExecute DELETE_SQL;
                  EvImportFromCsv (Some p') batch_size false])).
Proof.
  unfold try_except, import_retry, bind.
  destruct (download_city_data B true w1) as [[p' | e'] wd] eqn:Hd.
  - assert (Td : trace wd = trace w1 ++ [EvDownload true]).
    { pose proof (ext_new_events (EvDownload true)
                    (be_download_city_data B true) w1) as T.
      unfold download_city_data in Hd. rewrite Hd in T. exact T. }
    destruct (execute B self DELETE_SQL wd) as [[[] | e'] wx] eqn:Hx.
    + assert (Tx : trace wx = trace wd ++ [EvExecute DELETE_SQL]).
      { pose proof (ext_new_events (EvExecute DELETE_SQL)
                      (be_execute B DELETE_SQL) wd) as T.
        unfold execute in Hx. rewrite Hx in T. exact T. }
      destruct (import_from_csv B (Some p') batch_size false wx)
        as [r w'] eqn:Hi.
      assert (Ti : trace w' =
                   trace wx ++ [EvImportFromCsv (Some p') batch_size false]).
      { pose proof (ext_new_events (EvImportFromCsv (Some p') batch_size false)
                      (be_import_from_csv B (Some p') batch_size false) wx)
          as T.
        unfold import_from_csv in Hi. rewrite Hi in T. exact T. }
      exists (match r with Ok n => (n >? 0)%Z | Raise _ => false end), w'.
      split.
      * destruct r; reflexivity.
      * right. right. exists p', wd, wx, r. repeat split; auto.
        apply new_events_app. rewrite Ti, Tx, Td.
        rewrite <- !app_assoc. reflexivity.
    + exists false, wx. split; [reflexivity |].
      right. left. exists p', wd, e'. repeat split; auto.
      apply new_events_app.
      pose proof (ext_new_events (EvExecute DELETE_SQL)
                    (be_execute B DELETE_SQL) wd) as T.
      unfold execute in Hx. rewrite Hx in T. simpl in T.
      rewrite T, Td, <- app_assoc. reflexivity.
  - exists false, wd. split; [reflexivity |].
    left. exists e'. repeat split; auto.
    apply new_events_app.
    pose proof (ext_new_events (EvDownload true)
                  (be_download_city_data B true) w1) as T.
    unfold download_city_data in Hd. rewrite Hd in T. exact T.
Qed.

Lemma import_city_data_returns self csv_path batch_size w :
  exists b w', import_city_data B self csv_path batch_size w = (Ok b, w').
Proof.
  unfold import_city_data, try_except at 1.
  destruct (import_try B self csv_path batch_size w) as [[b | e] w1].
  - eauto.
  - destruct csv_path as [p |].
    + unfold ret. eauto.
    + destruct (import_retry_run self batch_size w1) as (b & w' & H & _).
      eauto.
Qed.

(** C4. [import_city_data] always returns a boolean.  After a failing first
    attempt it returns [False] at once when a path was given; when none was
    given it runs the recovery branch, which starts with a forced download,
    deletes the rows once the download returned, retries the import once
    after that, and turns any failure on the way into [False].  Each step
    is the collaborator's own call on the store the step before left: the
    download on the store of the failed attempt, [DELETE FROM city_data] on
    the store the download left, the retry on the store the delete left,
    and the store at the end is the one the last step left. *)
Theorem import_city_data_never_raises self csv_path batch_size w :
  (exists b w', import_city_data B self csv_path batch_size w = (Ok b, w'))
  /\ forall e w1,
       import_try B self csv_path batch_size w = (Raise e, w1) ->
       match csv_path with
       | Some _ =>
           import_city_data B self csv_path batch_size w = (Ok false, w1)
       | None =>
           exists b w',
             import_city_data B self csv_path batch_size w = (Ok b, w')
             /\ ((exists e',
                    download_city_data B true w1 = (Raise e', w')
                    /\ b = false
                    /\ new_events w1 w' = [EvDownload true]
                    /\ be_download_city_data B true
                         (List.length (trace w1)) (store w1) =
                       (Raise e', store w'))
                 \/ (exists p' wd e',
                       download_city_data B true w1 = (Ok p', wd)
                       /\ execute B self DELETE_SQL wd = (Raise e', w')
                       /\ b = false
                       /\ new_events w1 w' =
                          [EvDownload true; EvExecute DELETE_SQL]
                       /\ be_download_city_data B true
                            (List.length (trace w1)) (store w1) =
                          (Ok p', store wd)
                       /\ be_execute B DELETE_SQL
                            (List.length (trace wd)) (store wd) =
                          (Raise e', store w'))
                 \/ (exists p' wd wx r,
                       download_city_data B true w1 = (Ok p', wd)
                       /\ execute B self DELETE_SQL wd = (Ok tt, wx)
                       /\ import_from_csv B (Some p') batch_size false wx =
                          (r, w')
                       /\ b = match r with
                              | Ok n => (n >? 0)%Z
                              | Raise _ => false
                              end
                       /\ new_events w1 w' =
                          [EvDownload true; EvExecute DELETE_SQL;
                           EvImportFromCsv (Some p') batch_size false]
                       /\ be_download_city_data B true
                            (List.length (trace w1)) (store w1) =
                          (Ok p', store wd)
                       /\ be_execute B DELETE_SQL
                            (List.length (trace wd)) (store wd) =
                          (Ok tt, store wx)
                       /\ be_import_from_csv B (Some p') batch_size false
                            (List.length (trace wx)) (store wx) =
                          (r, store w')))
       end.
Proof.
  split.
  - apply import_city_data_returns.
  - intros e w1 Htry.
    destruct csv_path as [p |].
    + unfold import_city_data, try_except. rewrite Htry. reflexivity.
    + destruct (import_retry_run self batch_size w1) as (b & w' & H & D).
      exists b, w'. split.
      { unfold import_city_data, try_except at 1. rewrite Htry. exact H. }
      destruct D as [(e' & Hd & Hb & Hev)
                    | [(p' & wd & e' & Hd & Hx & Hb & Hev)
                      | (p' & wd & wx & r & Hd & Hx & Hi & Hb & Hev)]].
      * left. exists e'.
        split; [exact Hd |]. split; [exact Hb |]. split; [exact Hev |].
        apply (ext_backend _ _ _ Hd).
      * right. left. exists p', wd, e'.
        split; [exact Hd |]. split; [exact Hx |]. split; [exact Hb |].
        split; [exact Hev |].
        split; [apply (ext_backend _ _ _ Hd) | apply (ext_backend _ _ _ Hx)].
      * right. right. exists p', wd, wx, r.
        split; [exact Hd |]. split; [exact Hx |]. split; [exact Hi |].
        split; [exact Hb |]. split; [exact Hev |].
        split; [apply (ext_backend _ _ _ Hd) |].
        split; [apply (ext_backend _ _ _ Hx) | apply (ext_backend _ _ _ Hi)].
Qed.

End ImportCityData.

(** ** What each step leaves alone *)

Section Frames.

Context {Store : Type} (B : Backend Store).
Implicit Types (w : World Store) (P : Event -> bool).

Lemma frame_refl P w : frame P w w.
Proof.
  unfold frame. repeat split; auto.
  exists []. rewrite app_nil_r. auto.
Qed.

Lemma frame_trans P w1 w2 w3 :
  frame P w1 w2 -> frame P w2 w3 -> frame P w1 w3.
Proof.
  intros (E1 & C1 & U1 & N1 & evs1 & T1 & F1)
         (E2 & C2 & U2 & N2 & evs2 & T2 & F2).
  unfold frame. repeat split; try congruence; try lia.
  exists (evs1 ++ evs2). split.
  - rewrite T2, T1, app_assoc. reflexivity.
  - rewrite forallb_app, F1, F2. reflexivity.
Qed.

Lemma frame_weaken P Q w w' :
  (forall ev, P ev = true -> Q ev = true) -> frame P w w' -> frame Q w w'.
Proof.
  intros HPQ (E & C & U & N & evs & T & F).
  unfold frame. repeat split; auto.
  exists evs. split; auto.
  rewrite forallb_forall in *. auto.
Qed.

Lemma frame_new_events P w w' :
  frame P w w' -> forall ev, In ev (new_events w w') -> P ev = true.
Proof.
  intros (_ & _ & _ & _ & evs & T & F) ev.
  rewrite (new_events_app w w' evs T).
  rewrite forallb_forall in F. auto.
Qed.

Lemma preserves_ret P {A} (a : A) : preserves P (ret (Store := Store) a).
Proof. intros w. apply frame_refl. Qed.

Lemma preserves_raise P {A} e : preserves P (raise (Store := Store) (A := A) e).
Proof. intros w. apply frame_refl. Qed.

Lemma preserves_bind P {A C} (m : M Store A) (f : A -> M Store C) :
  preserves P m -> (forall a, preserves P (f a)) -> preserves P (bind m f).
Proof.
  intros Hm Hf w. unfold bind.
  specialize (Hm w). destruct (m w) as [[a | e] w1]; simpl in *.
  - eapply frame_trans; [exact Hm | apply Hf].
  - exact Hm.
Qed.

Lemma preserves_try_except P {A} (m : M Store A) (h : Exn -> M Store A) :
  preserves P m -> (forall e, preserves P (h e)) ->
  preserves P (try_except m h).
Proof.
  intros Hm Hh w. unfold try_except.
  specialize (Hm w). destruct (m w) as [[a | e] w1]; simpl in *.
  - exact Hm.
  - eapply frame_trans; [exact Hm | apply Hh].
Qed.

Lemma frame_log_event P ev w : P ev = true -> frame P w (log_event ev w).
Proof.
  intros HP. unfold frame. simpl. repeat split; auto.
  exists [ev]. simpl. rewrite HP. auto.
Qed.

Lemma preserves_ext P {A} ev (f : nat -> Store -> Result A * Store) :
  P ev = true -> preserves P (ext ev f).
Proof.
  intros HP w. rewrite ext_run. simpl.
  unfold frame. simpl. repeat split; auto.
  exists [ev]. simpl. rewrite HP. auto.
Qed.

Lemma preserves_ext_ro P {A} ev (f : nat -> Store -> Result A) :
  P ev = true -> preserves P (ext_ro ev f).
Proof.
  intros HP w. unfold ext_ro. simpl. apply frame_log_event. exact HP.
Qed.

Lemma preserves_alloc P : preserves P (alloc (Store := Store)).
Proof.
  intros w. unfold alloc, frame. simpl. repeat split; auto.
  exists []. rewrite app_nil_r. auto.
Qed.

Lemma preserves_getenv P : preserves P (getenv_worker_id (Store := Store)).
Proof. intros w. apply frame_refl. Qed.

End Frames.

Create HintDb frames.

#[global] Hint Resolve preserves_ret preserves_raise preserves_bind
  preserves_try_except preserves_ext preserves_ext_ro preserves_alloc
  preserves_getenv : frames.

(** ** The cache as a list *)

Section CacheTheory.

Lemma PyVal_eqb_eq a b : PyVal_eqb a b = true <-> a = b.
Proof.
  destruct a as [| p | s], b as [| q | t]; simpl;
    try (split; [discriminate | intros H; discriminate H]).
  - tauto.
  - rewrite Qeq_bool_iff. split.
    + intros H. f_equal. apply Qc_is_canon. exact H.
    + intros H. inversion H. reflexivity.
  - rewrite String.eqb_eq. split; [intros -> | intros H; inversion H]; auto.
Qed.

Lemma KeyItem_eqb_eq a b : KeyItem_eqb a b = true <-> a = b.
Proof.
  destruct a, b; simpl;
    try (split; [discriminate | intros H; discriminate H]).
  - rewrite Nat.eqb_eq. split; [intros -> | intros H; inversion H]; auto.
  - tauto.
  - rewrite PyVal_eqb_eq. split; [intros -> | intros H; inversion H]; auto.
Qed.

Lemma Key_eqb_eq a b : Key_eqb a b = true <-> a = b.
Proof.
  revert b. induction a as [| x a IH]; intros [| y b]; simpl;
    try (split; [discriminate | intros H; discriminate H]).
  - tauto.
  - rewrite andb_true_iff, KeyItem_eqb_eq, IH.
    split; [intros [-> ->] | intros H; inversion H]; auto.
Qed.

Lemma Key_eqb_refl k : Key_eqb k k = true.
Proof. apply Key_eqb_eq. reflexivity. Qed.

Lemma Key_eqb_neq a b : Key_eqb a b = false <-> a <> b.
Proof.
  rewrite <- Key_eqb_eq. destruct (Key_eqb a b); split; congruence.
Qed.

Lemma cache_find_in k c v : cache_find k c = Some v -> In (k, v) c.
Proof.
  induction c as [| [k' v'] c IH]; simpl; [discriminate |].
  destruct (Key_eqb k k') eqn:E.
  - apply Key_eqb_eq in E. subst. intros H. inversion H. auto.
  - auto.
Qed.

Lemma cache_find_none k c :
  cache_find k c = None <-> ~ In k (cache_keys c).
Proof.
  induction c as [| [k' v'] c IH]; simpl; [tauto |].
  destruct (Key_eqb k k') eqn:E.
  - apply Key_eqb_eq in E. subst. split; [discriminate | tauto].
  - apply Key_eqb_neq in E. rewrite IH. split.
    + intros H [H1 | H1]; [congruence | tauto].
    + tauto.
Qed.

Lemma cache_find_some_keys k c v :
  cache_find k c = Some v -> In k (cache_keys c).
Proof.
  intros H. apply cache_find_in in H.
  unfold cache_keys. change k with (fst (k, v)). apply in_map. exact H.
Qed.

Lemma cache_remove_keys k c :
  cache_keys (cache_remove k c) = key_remove k (cache_keys c).
Proof.
  induction c as [| [k' v'] c IH]; simpl; [reflexivity |].
  destruct (Key_eqb k k'); simpl; congruence.
Qed.

Lemma cache_remove_in k c x : In x (cache_remove k c) -> In x c.
Proof.
  induction c as [| [k' v'] c IH]; simpl; [tauto |].
  destruct (Key_eqb k k'); simpl; tauto.
Qed.

Lemma removelast_in {A} (l : list A) x : In x (removelast l) -> In x l.
Proof.
  induction l as [| a l IH]; simpl; [tauto |].
  destruct l; simpl in *; tauto.
Qed.

Lemma cache_touch_in k v c x :
  In x (cache_touch k v c) -> x = (k, v) \/ In x c.
Proof.
  unfold cache_touch. intros [H | H]; [auto | right].
  eapply cache_remove_in; eauto.
Qed.

Lemma cache_store_in n k v c x :
  In x (cache_store n k v c) -> x = (k, v) \/ In x c.
Proof.
  unfold cache_store. destruct (cache_find k c); [auto |].
  destruct (n <=? List.length c); intros [H | H]; auto.
  right. apply removelast_in. exact H.
Qed.

Lemma key_remove_length k l : List.length (key_remove k l) <= List.length l.
Proof. apply filter_length_le. Qed.

Lemma key_remove_length_in k l :
  In k l -> List.length (key_remove k l) < List.length l.
Proof.
  induction l as [| a l IH]; simpl; [tauto |].
  destruct (Key_eqb k a) eqn:E; simpl.
  - intros _. pose proof (key_remove_length k l).
    unfold key_remove in *. lia.
  - apply Key_eqb_neq in E. intros [H | H]; [congruence |].
    specialize (IH H). unfold key_remove in *. lia.
Qed.

Lemma cache_keys_length c : List.length (cache_keys c) = List.length c.
Proof. apply length_map. Qed.

(** A hit does not grow the cache. *)
Lemma cache_touch_length k v c :
  cache_find k c = Some v ->
  List.length (cache_touch k v c) <= List.length c.
Proof.
  intros H. apply cache_find_some_keys in H.
  apply key_remove_length_in in H.
  rewrite <- cache_remove_keys, !cache_keys_length in H.
  unfold cache_touch. simpl. lia.
Qed.

(** A miss keeps the cache within its capacity. *)
Lemma cache_store_length n k v c :
  0 < n -> List.length c <= n -> List.length (cache_store n k v c) <= n.
Proof.
  intros Hn Hc. unfold cache_store. destruct (cache_find k c); [exact Hc |].
  destruct (n <=? List.length c) eqn:E; simpl.
  - apply Nat.leb_le in E. rewrite removelast_firstn_len, length_firstn.
    destruct c; simpl in *; lia.
  - apply Nat.leb_gt in E. lia.
Qed.

Lemma key_remove_notin k l : ~ In k l -> key_remove k l = l.
Proof.
  induction l as [| a l IH]; simpl; [reflexivity |].
  intros H. destruct (Key_eqb k a) eqn:E.
  - apply Key_eqb_eq in E. subst. tauto.
  - simpl. f_equal. apply IH. tauto.
Qed.

Lemma key_remove_in k l x : In x (key_remove k l) <-> In x l /\ x <> k.
Proof.
  unfold key_remove. rewrite filter_In, negb_true_iff, Key_eqb_neq.
  split; intros [H1 H2]; split; auto.
Qed.

Lemma key_remove_NoDup k l : NoDup l -> NoDup (key_remove k l).
Proof. apply NoDup_filter. Qed.

Lemma recent_NoDup us : NoDup (recent us).
Proof.
  induction us as [| k us IH]; simpl; constructor.
  - rewrite key_remove_in. tauto.
  - apply key_remove_NoDup. exact IH.
Qed.

Lemma firstn_in {A} n (l : list A) x : In x (firstn n l) -> In x l.
Proof.
  intros H. rewrite <- (firstn_skipn n l). apply in_or_app. auto.
Qed.

(** Dropping a key that sits among the first [n] of a duplicate-free list
    leaves the first [n - 1] of the list without it. *)
Lemma key_remove_firstn_in k l : forall n,
  NoDup l -> In k (firstn n l) ->
  key_remove k (firstn n l) = firstn (n - 1) (key_remove k l).
Proof.
  induction l as [| a l IH]; intros n Hnd Hin.
  - rewrite firstn_nil in Hin. destruct Hin.
  - destruct n as [| n]; [destruct Hin |].
    inversion Hnd as [| ? ? Ha Hl]; subst.
    rewrite firstn_cons in *.
    replace (S n - 1) with n by lia.
    unfold key_remove at 1 2. cbn [filter].
    fold (key_remove k (firstn n l)). fold (key_remove k l).
    destruct (Key_eqb k a) eqn:E; cbn [negb].
    + apply Key_eqb_eq in E. subst a.
      rewrite !key_remove_notin; auto.
      intros H. apply Ha. eapply firstn_in; eauto.
    + apply Key_eqb_neq in E.
      destruct Hin as [H | H]; [congruence |].
      destruct n as [| n]; [destruct H |].
      rewrite firstn_cons. f_equal.
      rewrite (IH (S n) Hl H).
      replace (S n - 1) with n by lia. reflexivity.
Qed.

Lemma key_remove_firstn_notin k l : forall n,
  ~ In k (firstn n l) -> firstn n (key_remove k l) = firstn n l.
Proof.
  induction l as [| a l IH]; intros n Hin; [reflexivity |].
  destruct n as [| n]; [reflexivity |].
  simpl in *. destruct (Key_eqb k a) eqn:E.
  - apply Key_eqb_eq in E. subst. tauto.
  - simpl. f_equal. apply IH. tauto.
Qed.

End CacheTheory.

(** ** Construction *)

Section Construction.

Context {Store : Type} (B : Backend Store).
Implicit Types (w : World Store) (self : CityData).

Lemma preserves_import_city_data self csv_path batch_size :
  preserves is_import_event (import_city_data B self csv_path batch_size).
Proof.
  unfold import_city_data, import_try, import_retry, get_table_info,
    import_from_csv, download_city_data, execute.
  apply preserves_try_except.
  - apply preserves_bind; [auto with frames |].
    intros info. destruct (dict_get_row_count info >? 0)%Z;
      auto 6 with frames.
  - intros e. destruct csv_path; auto 10 with frames.
Qed.


Lemma preserves_setup db_uri persistent_flag :
  preserves is_setup_event (setup B db_uri persistent_flag).
Proof.
  unfold setup, resolve_db_uri, init_component.
  apply preserves_bind; [auto with frames | intros id].
  apply preserves_bind.
  { destruct db_uri; auto with frames. }
  intros uri. auto 20 with frames.
Qed.

Lemma init_component_ok c w w' :
  init_component B c w = (Ok tt, w') ->
  environ w' = environ w /\ next_id w' = next_id w.
Proof.
  unfold init_component. rewrite ext_run. intros H.
  inversion H; subst. auto.
Qed.

(** What a completed [setup] hands over. *)
Lemma setup_ok db_uri persistent_flag w self0 wid w0 :
  setup B db_uri persistent_flag w = (Ok (self0, wid), w0) ->
  wid = match environ w with Some v => v | None => "standalone" end
  /\ self_id self0 = next_id w
  /\ persistent self0 = None
  /\ (exists uri, db_manager self0 = Some (uri, persistent_flag))
  /\ next_id w0 = S (next_id w).
Proof.
  unfold setup, bind at 1. unfold alloc at 1.
  set (wa := {| store := store w; trace := trace w; caches := caches w;
                uses := uses w; environ := environ w;
                next_id := S (next_id w) |}).
  unfold bind at 1.
  destruct (resolve_db_uri B db_uri wa) as [[uri | e] wb] eqn:Hr;
    [| discriminate].
  assert (Hb : environ wb = environ w /\ next_id wb = S (next_id w)).
  { unfold resolve_db_uri in Hr. destruct db_uri.
    - inversion Hr; subst. auto.
    - unfold bind in Hr. rewrite ext_run in Hr.
      destruct (fst _) in Hr; inversion Hr; subst; auto. }
  destruct Hb as [Eb Nb].
  unfold bind at 1, getenv_worker_id at 1. rewrite Eb.
  unfold bind.
  repeat match goal with
  | |- context [init_component B ?c ?x] =>
      let H := fresh "Hc" in
      destruct (init_component B c x) as [[[] | ?] ?] eqn:H;
      [apply init_component_ok in H; destruct H | discriminate]
  end.
  unfold ret. intros Hfin. inversion Hfin; subst. simpl.
  repeat split; eauto. congruence.
Qed.

Lemma worker_id_standalone w :
  is_worker_env (environ w) = false ->
  String.eqb (match environ w with Some v => v | None => "standalone" end)
             "standalone" = true.
Proof.
  unfold is_worker_env. destruct (environ w) as [v |]; [| reflexivity].
  destruct (String.eqb v "standalone"); [reflexivity | discriminate].
Qed.

Lemma worker_id_worker w :
  is_worker_env (environ w) = true ->
  String.eqb (match environ w with Some v => v | None => "standalone" end)
             "standalone" = false.
Proof.
  unfold is_worker_env. destruct (environ w) as [v |]; [| discriminate].
  destruct (String.eqb v "standalone"); [discriminate | reflexivity].
Qed.

(** In a worker, construction is [setup] and nothing else. *)
Lemma init_worker db_uri persistent_flag w :
  is_worker_env (environ w) = true ->
  init B db_uri persistent_flag w =
  match setup B db_uri persistent_flag w with
  | (Ok (self0, _), w0) => (Ok (set_persistent self0 persistent_flag), w0)
  | (Raise e, w0) => (Raise e, w0)
  end.
Proof.
  intros Hw. unfold init, bind at 1.
  destruct (setup B db_uri persistent_flag w) as [[[self0 wid] | e] w0] eqn:Hs;
    [| reflexivity].
  destruct (setup_ok _ _ _ Hs) as (-> & _). simpl.
  rewrite (worker_id_worker _ Hw). reflexivity.
Qed.

(** Elsewhere it is [setup], then [bootstrap]. *)
Lemma init_standalone db_uri persistent_flag w :
  is_worker_env (environ w) = false ->
  init B db_uri persistent_flag w =
  match setup B db_uri persistent_flag w with
  | (Ok (self0, _), w0) =>
      match bootstrap B self0 w0 with
      | (Ok _, w') => (Ok (set_persistent self0 persistent_flag), w')
      | (Raise e, w') => (Raise e, w')
      end
  | (Raise e, w0) => (Raise e, w0)
  end.
Proof.
  intros Hw. unfold init, bind at 1.
  destruct (setup B db_uri persistent_flag w) as [[[self0 wid] | e] w0] eqn:Hs;
    [| reflexivity].
  destruct (setup_ok _ _ _ Hs) as (-> & _). simpl.
  rewrite (worker_id_standalone _ Hw). simpl. unfold bind.
  destruct (bootstrap B self0 w0) as [[[] | e] w']; reflexivity.
Qed.

(** The fallback of [bootstrap] cannot raise. *)
Lemma bootstrap_fallback_run self w :
  try_except (bind (import_city_data B self None DEFAULT_BATCH_SIZE)
                   (fun _ => ret tt))
             (fun _ => ret tt) w =
  (Ok tt, snd (import_city_data B self None DEFAULT_BATCH_SIZE w)).
Proof.
  unfold try_except, bind.
  destruct (import_city_data_returns B self None DEFAULT_BATCH_SIZE w)
    as (b & w' & ->).
  reflexivity.
Qed.


(** The check raises only at the row-count query: the query itself, or a
    result without ['row_count']. *)
Lemma bootstrap_check_raises self w e wc :
  bootstrap_check B self w = (Raise e, wc) ->
  wc = log_event EvGetTableInfo w
  /\ (fst (get_table_info B self w) = Raise e
      \/ exists info, fst (get_table_info B self w) = Ok info
                      /\ row_count info = None).
Proof.
  unfold bootstrap_check, bind at 1. rewrite get_table_info_run. simpl.
  destruct (be_get_table_info B _ _) as [info | e0].
  - destruct (row_count info) as [n |] eqn:Hr.
    + unfold bind at 1, ret at 1. destruct (n =? 0)%Z.
      * unfold bind.
        destruct (import_city_data_returns B self None DEFAULT_BATCH_SIZE
                    (log_event EvGetTableInfo w)) as (b & w' & ->).
        discriminate.
      * discriminate.
    + unfold bind, raise. intros H. inversion H; subst. eauto.
  - intros H. inversion H; subst. auto.
Qed.


End Construction.

(** ** The decorated read methods *)

Section CachedReads.

Context {Store : Type} (B : Backend Store).
Implicit Types (w : World Store) (self : CityData) (m : Method).

Lemma Method_eqb_refl m : Method_eqb m m = true.
Proof. destruct m; reflexivity. Qed.

Lemma Method_eqb_eq m m' : Method_eqb m m' = true <-> m = m'.
Proof. destruct m, m'; simpl; split; congruence. Qed.

Lemma maxsize_pos m : 0 < maxsize m.
Proof. destruct m; simpl; apply Nat.lt_0_succ. Qed.

Lemma preserves_weaken P Q {A} (x : M Store A) :
  (forall ev, P ev = true -> Q ev = true) -> preserves P x -> preserves Q x.
Proof.
  intros HPQ Hx w. eapply frame_weaken; [exact HPQ | apply Hx].
Qed.

(** *** Binding *)

Lemma bind_params_length ps : forall args kw bound,
  bind_params ps args kw = Some bound -> List.length bound = List.length ps.
Proof.
  induction ps as [| [name default] ps IH]; intros args kw bound; simpl.
  - destruct args; [| discriminate]. intros H. inversion H. reflexivity.
  - destruct args as [| a args].
    + destruct (kw_lookup name kw) as [v |]; [| destruct default as [d |]];
        try discriminate;
        destruct (bind_params ps [] kw) as [b |] eqn:E; try discriminate;
        intros H; inversion H; simpl; f_equal; eapply IH; eauto.
    + destruct (kw_mem name kw); [discriminate |].
      destruct (bind_params ps args kw) as [b |] eqn:E; [| discriminate].
      intros H. inversion H. simpl. f_equal. eapply IH; eauto.
Qed.

(** A call that fits the signature makes exactly one repository call. *)
Lemma call_method_bound m self args kw bound :
  bind_args (signature m) args kw = Some bound ->
  exists op,
    method_op m bound = Some op
    /\ call_method B m self args kw = repo B op.
Proof.
  intros Hb. unfold call_method. rewrite Hb.
  unfold bind_args in Hb.
  destruct (kw_names_ok (signature m) kw); [| discriminate].
  apply bind_params_length in Hb.
  destruct m; simpl in Hb;
    repeat (destruct bound as [| ? bound]; try discriminate Hb);
    eexists; split; reflexivity.
Qed.

Lemma repo_run op w :
  repo B op w =
  (be_repo B op (List.length (trace w)) (store w), log_event (EvRepo op) w).
Proof. reflexivity. Qed.

Lemma preserves_call_method m self args kw :
  preserves is_repo_event (call_method B m self args kw).
Proof.
  unfold call_method.
  destruct (bind_args (signature m) args kw) as [bound |];
    [| auto with frames].
  unfold method_body, search_cities_body, get_city_body, get_countries_body,
    get_states_body, get_cities_in_state_body, repo.
  destruct m;
    repeat (destruct bound as [| ? bound]; auto with frames).
Qed.

(** *** Keys *)

Lemma kw_items_inj kw : forall kw', kw_items kw = kw_items kw' -> kw = kw'.
Proof.
  induction kw as [| [n v] kw IH]; intros [| [n' v'] kw']; simpl;
    try discriminate; auto.
  intros H. inversion H; subst. f_equal. apply IH. assumption.
Qed.

Lemma kw_tail_inj kw kw' : kw_tail kw = kw_tail kw' -> kw = kw'.
Proof.
  destruct kw as [| p kw], kw' as [| p' kw']; unfold kw_tail;
    try discriminate; auto.
  intros H. apply kw_items_inj. congruence.
Qed.

Lemma kw_tail_not_val kw v k : kw_tail kw <> KVal v :: k.
Proof. destruct kw; simpl; discriminate. Qed.

(** Two calls have the same key only if they pass the same arguments in the
    same way. *)
Lemma make_key_inj id args kw args' kw' :
  make_key id args kw = make_key id args' kw' -> args = args' /\ kw = kw'.
Proof.
  unfold make_key. fold (kw_tail kw). fold (kw_tail kw').
  intros H. inversion H as [H']. clear H.
  revert args' H'.
  induction args as [| a args IH]; intros [| a' args'] H; simpl in H.
  - split; [reflexivity | apply kw_tail_inj; exact H].
  - exfalso. eapply kw_tail_not_val. exact H.
  - exfalso. eapply kw_tail_not_val. symmetry. exact H.
  - inversion H; subst. destruct (IH args') as [-> ->]; auto.
Qed.

(** *** The wrapper *)

Lemma caches_update m c k w :
  caches (record_use m k (set_cache m c w)) m = c.
Proof. simpl. rewrite Method_eqb_refl. reflexivity. Qed.

Lemma caches_update_other m m' c k w :
  m <> m' -> caches (record_use m k (set_cache m c w)) m' = caches w m'.
Proof.
  intros H. simpl. destruct (Method_eqb m m') eqn:E; [| reflexivity].
  apply Method_eqb_eq in E. contradiction.
Qed.

Lemma uses_update m c k w :
  uses (record_use m k (set_cache m c w)) m = k :: uses w m.
Proof. simpl. rewrite Method_eqb_refl. reflexivity. Qed.

Lemma uses_update_other m m' c k w :
  m <> m' -> uses (record_use m k (set_cache m c w)) m' = uses w m'.
Proof.
  intros H. simpl. destruct (Method_eqb m m') eqn:E; [| reflexivity].
  apply Method_eqb_eq in E. contradiction.
Qed.

(** A hit: the stored result, and no call at all. *)
Lemma cached_hit m self args kw w v :
  cache_find (make_key (self_id self) args kw) (caches w m) = Some v ->
  cached B m self args kw w =
  (Ok v,
   record_use m (make_key (self_id self) args kw)
     (set_cache m
        (cache_touch (make_key (self_id self) args kw) v (caches w m)) w)).
Proof.
  intros H. unfold cached, lru_cache_wrapper. rewrite H. reflexivity.
Qed.

(** A miss: the method runs; its result is stored when it returns. *)
Lemma cached_miss m self args kw w :
  cache_find (make_key (self_id self) args kw) (caches w m) = None ->
  cached B m self args kw w =
  match call_method B m self args kw w with
  | (Ok v, w') =>
      (Ok v,
       record_use m (make_key (self_id self) args kw)
         (set_cache m
            (cache_store (maxsize m) (make_key (self_id self) args kw) v
               (caches w m)) w'))
  | (Raise e, w') => (Raise e, w')
  end.
Proof.
  intros H. unfold cached, lru_cache_wrapper. rewrite H.
  pose proof (preserves_call_method m self args kw w) as (_ & C & _).
  destruct (call_method B m self args kw w) as [[v | e] w']; [| reflexivity].
  simpl in C. rewrite C. reflexivity.
Qed.

(** *** One call after another *)

Lemma cache_find_remove_other k k' c :
  k' <> k -> cache_find k' (cache_remove k c) = cache_find k' c.
Proof.
  intros Hne. induction c as [| [k0 v0] c IH]; simpl; [reflexivity |].
  destruct (Key_eqb k k0) eqn:E.
  - apply Key_eqb_eq in E. subst k0.
    destruct (Key_eqb k' k) eqn:E'; [| exact IH].
    apply Key_eqb_eq in E'. contradiction.
  - simpl. destruct (Key_eqb k' k0); [reflexivity | exact IH].
Qed.

Lemma cache_find_removelast k c v :
  cache_find k (removelast c) = Some v -> cache_find k c = Some v.
Proof.
  induction c as [| [k0 v0] c IH]; simpl; [discriminate |].
  destruct c as [| p c]; [discriminate |].
  change (removelast (p :: c)) with (removelast (p :: c)) in *.
  cbn [cache_find].
  destruct (Key_eqb k k0); [auto | exact IH].
Qed.

Lemma cache_find_head k v c : cache_find k ((k, v) :: c) = Some v.
Proof. simpl. rewrite Key_eqb_refl. reflexivity. Qed.

Lemma cache_find_cons_other k k' v c :
  k' <> k -> cache_find k' ((k, v) :: c) = cache_find k' c.
Proof.
  intros H. simpl. destruct (Key_eqb k' k) eqn:E; [| reflexivity].
  apply Key_eqb_eq in E. contradiction.
Qed.

(** A call that returns leaves its result in the cache, under its key. *)
Lemma cached_stores_result m self args kw w v w1 :
  cached B m self args kw w = (Ok v, w1) ->
  cache_find (make_key (self_id self) args kw) (caches w1 m) = Some v.
Proof.
  set (k := make_key (self_id self) args kw).
  destruct (cache_find k (caches w m)) as [v0 |] eqn:F.
  - rewrite (cached_hit _ _ _ _ _ F). fold k. intros H.
    inversion H; subst. rewrite caches_update.
    apply cache_find_head.
  - rewrite (cached_miss _ _ _ _ _ F). fold k.
    destruct (call_method B m self args kw w) as [[v1 | e] w'];
      [| discriminate].
    intros H. inversion H; subst. rewrite caches_update.
    unfold cache_store. rewrite F.
    destruct (maxsize m <=? List.length (caches w m)); apply cache_find_head.
Qed.

(** Whatever a call finds under another key afterwards was there before. *)
Lemma cached_other_key m self args kw w k' v' :
  k' <> make_key (self_id self) args kw ->
  cache_find k' (caches (snd (cached B m self args kw w)) m) = Some v' ->
  cache_find k' (caches w m) = Some v'.
Proof.
  set (k := make_key (self_id self) args kw). intros Hne.
  destruct (cache_find k (caches w m)) as [v0 |] eqn:F.
  - rewrite (cached_hit _ _ _ _ _ F). fold k. simpl snd.
    rewrite caches_update. unfold cache_touch.
    rewrite cache_find_cons_other by exact Hne.
    rewrite cache_find_remove_other by exact Hne. auto.
  - rewrite (cached_miss _ _ _ _ _ F). fold k.
    pose proof (preserves_call_method m self args kw w) as (_ & C & _).
    destruct (call_method B m self args kw w) as [[v1 | e] w']; simpl snd.
    + rewrite caches_update. unfold cache_store. rewrite F.
      destruct (maxsize m <=? List.length (caches w m));
        rewrite cache_find_cons_other by exact Hne; auto.
      apply cache_find_removelast.
    + simpl in C. rewrite C. auto.
Qed.

Lemma cached_other_key_none m self args kw w k' :
  k' <> make_key (self_id self) args kw ->
  cache_find k' (caches w m) = None ->
  cache_find k' (caches (snd (cached B m self args kw w)) m) = None.
Proof.
  intros Hne Hnone.
  destruct (cache_find k' (caches (snd (cached B m self args kw w)) m))
    as [v' |] eqn:F; [| reflexivity].
  apply cached_other_key in F; [congruence | exact Hne].
Qed.

(** A hit logs nothing and leaves the store alone. *)
Lemma cached_hit_quiet m self args kw w v :
  cache_find (make_key (self_id self) args kw) (caches w m) = Some v ->
  exists w1,
    cached B m self args kw w = (Ok v, w1)
    /\ trace w1 = trace w /\ store w1 = store w.
Proof.
  intros F. rewrite (cached_hit _ _ _ _ _ F). eexists. split; [reflexivity |].
  split; reflexivity.
Qed.

(** A miss of a call that fits the signature is one repository call. *)
Lemma cached_miss_bound m self args kw w bound :
  cache_find (make_key (self_id self) args kw) (caches w m) = None ->
  bind_args (signature m) args kw = Some bound ->
  exists op,
    method_op m bound = Some op
    /\ fst (cached B m self args kw w) =
       be_repo B op (List.length (trace w)) (store w)
    /\ trace (snd (cached B m self args kw w)) = trace w ++ [EvRepo op]
    /\ store (snd (cached B m self args kw w)) = store w.
Proof.
  intros F Hb.
  destruct (call_method_bound m self args kw Hb) as (op & Hop & Hcall).
  exists op. split; [exact Hop |].
  rewrite (cached_miss _ _ _ _ _ F), Hcall, repo_run.
  destruct (be_repo B op _ _) as [v | e]; simpl; auto.
Qed.

(** An ill-formed call raises [TypeError] after the lookup. *)
Lemma cached_miss_unbound m self args kw w :
  cache_find (make_key (self_id self) args kw) (caches w m) = None ->
  bind_args (signature m) args kw = None ->
  cached B m self args kw w = (Raise TypeError, w).
Proof.
  intros F Hb. rewrite (cached_miss _ _ _ _ _ F).
  unfold call_method. rewrite Hb. reflexivity.
Qed.

(** C1 (as amended). A call that returned, made again with the same
    arguments passed in the same way, returns the same result without any
    repository call.  A call that passes other arguments, or the same ones
    in another way, is never answered from the first call's entry: it makes
    its own repository call unless its own key was in the cache already. *)
Theorem cached_call_keyed_by_call m self args kw w :
  (forall v w1,
     cached B m self args kw w = (Ok v, w1) ->
     exists w2,
       cached B m self args kw w1 = (Ok v, w2)
       /\ new_events w1 w2 = [] /\ store w2 = store w1)
  /\ (forall args' kw' bound',
        (args', kw') <> (args, kw) ->
        bind_args (signature m) args' kw' = Some bound' ->
        let w1 := snd (cached B m self args kw w) in
        let r2 := cached B m self args' kw' w1 in
        (cache_find (make_key (self_id self) args' kw') (caches w m) = None ->
         exists op,
           method_op m bound' = Some op
           /\ fst r2 = be_repo B op (List.length (trace w1)) (store w1)
           /\ new_events w1 (snd r2) = [EvRepo op])
        /\ (forall v',
              fst r2 = Ok v' -> new_events w1 (snd r2) = [] ->
              cache_find (make_key (self_id self) args' kw') (caches w m) =
              Some v')).
Proof.
  split.
  - intros v w1 Hcall.
    apply cached_stores_result in Hcall.
    edestruct cached_hit_quiet as (w2 & H2 & T & S); [exact Hcall |].
    exists w2. repeat split; auto.
    apply new_events_app. rewrite app_nil_r. exact T.
  - intros args' kw' bound' Hdiff Hb w1 r2.
    assert (Hne : make_key (self_id self) args' kw' <>
                  make_key (self_id self) args kw).
    { intros H. apply make_key_inj in H. destruct H; subst. auto. }
    split.
    + intros Hnone.
      assert (F1 : cache_find (make_key (self_id self) args' kw')
                     (caches w1 m) = None)
        by (apply cached_other_key_none; assumption).
      edestruct cached_miss_bound as (op & Hop & Hr & T & _);
        [exact F1 | exact Hb |].
      exists op. repeat split; auto.
      apply new_events_app. exact T.
    + intros v' Hr Hquiet.
      destruct (cache_find (make_key (self_id self) args' kw') (caches w1 m))
        as [v0 |] eqn:F1.
      * unfold r2 in Hr. rewrite (cached_hit _ _ _ _ _ F1) in Hr.
        simpl in Hr. inversion Hr; subst v0.
        eapply cached_other_key; eauto.
      * edestruct cached_miss_bound as (op & _ & _ & T & _);
          [exact F1 | exact Hb |].
        unfold r2 in Hquiet.
        rewrite (new_events_app _ _ _ T) in Hquiet. discriminate.
Qed.

(** *** Recency *)

Lemma cache_keys_touch k v c :
  cache_keys (cache_touch k v c) = k :: key_remove k (cache_keys c).
Proof.
  unfold cache_touch. simpl. rewrite cache_remove_keys. reflexivity.
Qed.

Lemma cache_keys_removelast c :
  cache_keys (removelast c) = firstn (List.length c - 1) (cache_keys c).
Proof.
  unfold cache_keys. rewrite removelast_firstn_len, firstn_map.
  replace (pred (List.length c)) with (List.length c - 1) by lia.
  reflexivity.
Qed.

(** One use of key [k] keeps a cache the list of its [n] latest keys. *)
Lemma lru_step n c us k v :
  0 < n ->
  cache_keys c = firstn n (recent us) ->
  (cache_find k c = Some v ->
   cache_keys (cache_touch k v c) = firstn n (recent (k :: us)))
  /\ (cache_find k c = None ->
      cache_keys (cache_store n k v c) = firstn n (recent (k :: us))).
Proof.
  intros Hn Hinv. destruct n as [| n']; [lia |].
  cbn [recent]. rewrite firstn_cons. split.
  - intros F. apply cache_find_some_keys in F.
    rewrite cache_keys_touch, Hinv. f_equal.
    rewrite Hinv in F.
    rewrite key_remove_firstn_in; [| apply recent_NoDup | exact F].
    replace (S n' - 1) with n' by lia. reflexivity.
  - intros F. unfold cache_store. rewrite F.
    apply cache_find_none in F. rewrite Hinv in F.
    assert (Hlen : List.length c = min (S n') (List.length (recent us))).
    { rewrite <- cache_keys_length, Hinv, length_firstn. reflexivity. }
    destruct (S n' <=? List.length c) eqn:E.
    + apply Nat.leb_le in E.
      change (cache_keys ((k, v) :: removelast c))
        with (k :: cache_keys (removelast c)).
      f_equal. rewrite cache_keys_removelast, Hinv, firstn_firstn.
      replace (min (List.length c - 1) (S n')) with n' by lia.
      symmetry. apply key_remove_firstn_notin.
      intros H. apply F.
      replace (firstn n' (recent us))
        with (firstn n' (firstn (S n') (recent us))) in H
        by (rewrite firstn_firstn; f_equal; lia).
      eapply firstn_in; eauto.
    + apply Nat.leb_gt in E.
      change (cache_keys ((k, v) :: c)) with (k :: cache_keys c).
      f_equal. rewrite Hinv.
      assert (Hshort : List.length (recent us) <= n') by lia.
      rewrite firstn_all2 in F by lia.
      rewrite firstn_all2 by lia.
      rewrite key_remove_notin by exact F.
      rewrite firstn_all2 by lia. reflexivity.
Qed.

(** A call that returns is logged in the history of its method; one that
    raises changes neither the caches nor the history. *)
Lemma cached_uses m self args kw w :
  match cached B m self args kw w with
  | (Ok _, w') =>
      uses w' m = make_key (self_id self) args kw :: uses w m
      /\ (forall m', m <> m' ->
            uses w' m' = uses w m' /\ caches w' m' = caches w m')
  | (Raise _, w') => uses w' = uses w /\ caches w' = caches w
  end.
Proof.
  set (k := make_key (self_id self) args kw).
  destruct (cache_find k (caches w m)) as [v0 |] eqn:F.
  - rewrite (cached_hit _ _ _ _ _ F). fold k.
    split; [apply uses_update |].
    intros m' Hm. split;
      [apply uses_update_other | apply caches_update_other]; exact Hm.
  - rewrite (cached_miss _ _ _ _ _ F). fold k.
    pose proof (preserves_call_method m self args kw w) as (_ & C & U & _).
    destruct (call_method B m self args kw w) as [[v1 | e] w']; simpl in *.
    + rewrite Method_eqb_refl, U. split; [reflexivity |].
      intros m' Hm. destruct (Method_eqb m m') eqn:E.
      * apply Method_eqb_eq in E. contradiction.
      * rewrite C. auto.
    + auto.
Qed.

Lemma cached_lru_inv m self args kw w :
  lru_inv w -> lru_inv (snd (cached B m self args kw w)).
Proof.
  intros Hinv m'.
  set (k := make_key (self_id self) args kw).
  pose proof (maxsize_pos m) as Hpos.
  destruct (cache_find k (caches w m)) as [v0 |] eqn:F.
  - rewrite (cached_hit _ _ _ _ _ F). fold k. simpl.
    destruct (Method_eqb m m') eqn:E.
    + apply Method_eqb_eq in E. subst m'.
      apply (@lru_step (maxsize m) (caches w m) (uses w m) k v0 Hpos
               (Hinv m)).
      exact F.
    + apply Hinv.
  - rewrite (cached_miss _ _ _ _ _ F). fold k.
    pose proof (preserves_call_method m self args kw w) as (_ & C & U & _).
    destruct (call_method B m self args kw w) as [[v1 | e] w']; simpl in *.
    + rewrite U. destruct (Method_eqb m m') eqn:E.
      * apply Method_eqb_eq in E. subst m'.
        apply (@lru_step (maxsize m) (caches w m) (uses w m) k v1 Hpos
                 (Hinv m)).
        exact F.
      * rewrite C. apply Hinv.
    + rewrite C, U. apply Hinv.
Qed.

Lemma frame_lru_inv P w w' : frame P w w' -> lru_inv w -> lru_inv w'.
Proof.
  intros (_ & C & U & _) Hinv m. rewrite C, U. apply Hinv.
Qed.

End CachedReads.

(** ** Call sequences *)

Section Sequences.

Context {Store : Type} (B : Backend Store).
Implicit Types (w : World Store) (self : CityData) (m : Method).

Lemma preserves_any P {A} (x : M Store A) :
  preserves P x -> preserves any_event x.
Proof. apply preserves_weaken. reflexivity. Qed.

Lemma preserves_bootstrap self : preserves any_event (bootstrap B self).
Proof.
  pose proof (preserves_any
                (preserves_import_city_data B self None DEFAULT_BATCH_SIZE))
    as Himp.
  unfold bootstrap, ensure_schema_exists, bootstrap_check, get_table_info.
  apply preserves_bind; [auto with frames | intros _].
  apply preserves_try_except.
  - apply preserves_bind; [auto with frames | intros info].
    apply preserves_bind.
    + destruct (row_count info); auto with frames.
    + intros count. destruct (count =? 0)%Z; auto with frames.
  - intros e. auto with frames.
Qed.

Lemma preserves_init db_uri persistent_flag :
  preserves any_event (init B db_uri persistent_flag).
Proof.
  unfold init.
  apply preserves_bind.
  - eapply preserves_any. apply preserves_setup.
  - intros r. apply preserves_bind; [| auto with frames].
    destruct (negb (negb (String.eqb (snd r) "standalone")));
      [apply preserves_bootstrap | auto with frames].
Qed.

Lemma preserves_close self : preserves any_event (close B self).
Proof.
  unfold close. destruct (db_manager self); [| auto with frames].
  destruct (persistent self) as [[|] |]; auto with frames.
Qed.

Lemma preserves_coordinates self lat lng radius_km :
  preserves any_event (get_cities_by_coordinates B self lat lng radius_km).
Proof. unfold get_cities_by_coordinates, repo. auto with frames. Qed.

Lemma exec_lru_inv c w : lru_inv w -> lru_inv (exec B c w).
Proof.
  intros Hinv. destruct c; cbn [exec].
  - eapply frame_lru_inv; [apply preserves_init | exact Hinv].
  - eapply frame_lru_inv; [apply preserves_import_city_data | exact Hinv].
  - apply cached_lru_inv. exact Hinv.
  - eapply frame_lru_inv; [apply preserves_coordinates | exact Hinv].
  - eapply frame_lru_inv; [| exact Hinv].
    unfold get_table_info.
    apply (preserves_ext_ro any_event EvGetTableInfo (be_get_table_info B)).
    reflexivity.
  - eapply frame_lru_inv; [apply preserves_close | exact Hinv].
  - unfold exit_. eapply frame_lru_inv; [apply preserves_close | exact Hinv].
Qed.

Lemma run_lru_inv calls :
  forall w : World Store, lru_inv w -> lru_inv (run B calls w).
Proof.
  unfold run. induction calls as [| c calls IH]; intros w Hinv; simpl.
  - exact Hinv.
  - apply IH. apply exec_lru_inv. exact Hinv.
Qed.

Lemma initial_lru_inv (s : Store) env : lru_inv (initial_world s env).
Proof. intros m. simpl. rewrite firstn_nil. reflexivity. Qed.

Lemma lru_inv_length w m :
  lru_inv w -> List.length (caches w m) <= maxsize m.
Proof.
  intros Hinv. rewrite <- cache_keys_length, (Hinv m).
  apply firstn_le_length.
Qed.

(** C6. The capacities are those of the decorators.  After any sequence of
    calls each cache holds at most that many entries: they are the keys of
    the latest calls that returned, so that a miss on a full cache drops the
    entry that was used least recently. *)
Theorem lru_cache_capacity :
  (maxsize MGetCity = 1000 /\ maxsize MSearchCities = 5000
   /\ maxsize MGetCitiesInState = 500 /\ maxsize MGetStates = 100
   /\ maxsize MGetCountries = 1)
  /\ (forall s env calls m,
        let w := run B calls (initial_world s env) in
        List.length (caches w m) <= maxsize m
        /\ cache_keys (caches w m) = firstn (maxsize m) (recent (uses w m)))
  /\ (forall w c, lru_inv w -> lru_inv (exec B c w))
  /\ (forall m self args kw w v w',
        cached B m self args kw w = (Ok v, w') ->
        uses w' m = make_key (self_id self) args kw :: uses w m)
  /\ (forall m self args kw w e w',
        cached B m self args kw w = (Raise e, w') ->
        uses w' = uses w /\ caches w' = caches w)
  /\ (forall m self args kw w v w',
        cache_find (make_key (self_id self) args kw) (caches w m) = None ->
        List.length (caches w m) = maxsize m ->
        cached B m self args kw w = (Ok v, w') ->
        caches w' m =
        (make_key (self_id self) args kw, v) :: removelast (caches w m)).
Proof.
  split; [repeat split |].
  split; [| split; [| split; [| split]]].
  - intros s env calls m w.
    assert (Hinv : lru_inv w)
      by (apply run_lru_inv, initial_lru_inv).
    split; [apply lru_inv_length; exact Hinv | apply Hinv].
  - intros w c. apply exec_lru_inv.
  - intros m self args kw w v w' H.
    pose proof (cached_uses B m self args kw w) as Hu.
    rewrite H in Hu. apply Hu.
  - intros m self args kw w e w' H.
    pose proof (cached_uses B m self args kw w) as Hu.
    rewrite H in Hu. exact Hu.
  - intros m self args kw w v w' F Hfull H.
    rewrite (cached_miss B _ _ _ _ _ F) in H.
    destruct (call_method B m self args kw w) as [[v1 | e] w1];
      [| discriminate].
    inversion H; subst. rewrite caches_update.
    unfold cache_store. rewrite F, Hfull, Nat.leb_refl. reflexivity.
Qed.

(** C7. [get_cities_by_coordinates] is the repository call and nothing
    else: every call logs one [find_by_coordinates], returns what the
    repository returned, and touches no cache; the same call made again
    goes to the repository again. *)
Theorem get_cities_by_coordinates_uncached self lat lng radius_km w :
  let op := OpFindByCoordinates lat lng radius_km in
  let w1 := log_event (EvRepo op) w in
  get_cities_by_coordinates B self lat lng radius_km w =
    (be_repo B op (List.length (trace w)) (store w), w1)
  /\ caches w1 = caches w
  /\ get_cities_by_coordinates B self lat lng radius_km w1 =
       (be_repo B op (List.length (trace w1)) (store w1),
        log_event (EvRepo op) w1)
  /\ new_events w (log_event (EvRepo op) w1) = [EvRepo op; EvRepo op].
Proof.
  intros op w1. repeat split.
  apply new_events_app. simpl. rewrite <- app_assoc. reflexivity.
Qed.

End Sequences.

(** ** Release *)

Section Release.

Context {Store : Type} (B : Backend Store).
Implicit Types (w : World Store) (self : CityData).

Lemma close_persistent self w :
  persistent self = Some true -> close B self w = (Ok tt, w).
Proof.
  intros H. unfold close. rewrite H. destruct (db_manager self); reflexivity.
Qed.

Lemma close_transient self w :
  db_manager self <> None -> persistent self <> Some true ->
  close B self w = ext EvDbClose (be_db_close B) w.
Proof.
  intros Hd Hp. unfold close.
  destruct (db_manager self); [| contradiction].
  destruct (persistent self) as [[|] |]; try reflexivity. contradiction.
Qed.

(** [with] runs the body, then [close], whatever the body did. *)
Lemma with_block_run {A} self (body : CityData -> M Store A) w :
  with_block B self body w =
  match close B self (snd (body self w)) with
  | (Ok _, w2) => (fst (body self w), w2)
  | (Raise e', w2) => (Raise e', w2)
  end.
Proof.
  unfold with_block, enter, ret, exit_.
  destruct (body self w) as [[a | e] w1]; simpl;
    destruct (close B self w1) as [[[] | e'] w2]; reflexivity.
Qed.


End Release.

(** ** Degradation *)

Section Degradation.

Context {Store : Type} (B : Backend Store).
Implicit Types (w : World Store) (self : CityData) (m : Method).

(** [bootstrap] after a schema check that returned: the row-count check,
    and the fallback import when the check raised. *)
Lemma bootstrap_run self w0 w1 :
  ensure_schema_exists B self w0 = (Ok tt, w1) ->
  bootstrap B self w0 =
  (Ok tt,
   match bootstrap_check B self w1 with
   | (Ok _, wc) => wc
   | (Raise _, wc) =>
       snd (import_city_data B self None DEFAULT_BATCH_SIZE wc)
   end).
Proof.
  intros He. unfold bootstrap, bind at 1. rewrite He.
  unfold try_except at 1.
  destruct (bootstrap_check B self w1) as [[[] | e] wc]; [reflexivity |].
  apply bootstrap_fallback_run.
Qed.

Lemma import_retry_store_failed self batch_size w :
  ingestion_fails B (store w) ->
  store (snd (try_except (import_retry B self batch_size)
                         (fun _ => ret false) w)) = store w.
Proof.
  intros [_ Hdl].
  unfold try_except, import_retry, bind, download_city_data, ext.
  destruct (Hdl true (List.length (trace w))) as [e ->]. reflexivity.
Qed.

(** When ingestion fails entirely, [import_city_data] leaves the store as
    it found it. *)
Lemma import_city_data_store_failed self csv_path batch_size w :
  ingestion_fails B (store w) ->
  store (snd (import_city_data B self csv_path batch_size w)) = store w.
Proof.
  intros Hfail. pose proof Hfail as [Himp _].
  unfold import_city_data, try_except at 1, import_try, bind.
  rewrite get_table_info_run.
  destruct (be_get_table_info B _ _) as [info | e0].
  - destruct (dict_get_row_count info >? 0)%Z; [reflexivity |].
    unfold import_from_csv, ext. simpl.
    destruct (Himp csv_path batch_size true
                (List.length (trace w ++ [EvGetTableInfo]))) as [e ->].
    destruct csv_path as [p |]; [reflexivity |].
    rewrite import_retry_store_failed; [reflexivity | exact Hfail].
  - destruct csv_path as [p |]; [reflexivity |].
    rewrite import_retry_store_failed; [reflexivity | exact Hfail].
Qed.

Lemma bootstrap_check_store_failed self w :
  ingestion_fails B (store w) ->
  store (snd (bootstrap_check B self w)) = store w.
Proof.
  intros Hfail. unfold bootstrap_check, bind at 1.
  rewrite get_table_info_run.
  destruct (be_get_table_info B _ _) as [info | e0]; [| reflexivity].
  destruct (row_count info) as [n |]; [| reflexivity].
  unfold bind at 1, ret at 1. destruct (n =? 0)%Z; [| reflexivity].
  unfold bind.
  pose proof (import_city_data_store_failed self None DEFAULT_BATCH_SIZE
                (log_event EvGetTableInfo w) Hfail) as Hs.
  destruct (import_city_data B self None DEFAULT_BATCH_SIZE
              (log_event EvGetTableInfo w)) as [[b | e] w']; exact Hs.
Qed.

Lemma key_owner_make_key id args kw :
  key_owner (make_key id args kw) = Some id.
Proof. reflexivity. Qed.

(** *** Reads over an empty store *)

Lemma serves_empty_log self s t0 w ev :
  serves_empty self s t0 w -> serves_empty self s t0 (log_event ev w).
Proof.
  intros (Hs & Ht & Hc). unfold serves_empty. simpl.
  repeat split; auto. rewrite length_app. lia.
Qed.

Lemma get_table_info_empty self s t0 w :
  reads_empty B s t0 -> serves_empty self s t0 w ->
  exists info,
    get_table_info B self w = (Ok info, log_event EvGetTableInfo w)
    /\ row_count info = Some 0%Z
    /\ serves_empty self s t0 (log_event EvGetTableInfo w).
Proof.
  intros [Hinfo _] Hw. pose proof Hw as (Hs & Ht & _).
  destruct (Hinfo (List.length (trace w)) Ht) as (info & Hi & Hr).
  exists info. rewrite get_table_info_run, Hs, Hi.
  split; [reflexivity | split; [exact Hr |]].
  apply serves_empty_log. exact Hw.
Qed.

Lemma coordinates_empty self s t0 w lat lng radius_km :
  reads_empty B s t0 -> serves_empty self s t0 w ->
  exists r,
    fst (get_cities_by_coordinates B self lat lng radius_km w) = Ok r
    /\ is_empty_result r = true
    /\ serves_empty self s t0
         (snd (get_cities_by_coordinates B self lat lng radius_km w)).
Proof.
  intros [_ Hrepo] Hw. pose proof Hw as (Hs & Ht & _).
  destruct (Hrepo (OpFindByCoordinates lat lng radius_km)
              (List.length (trace w)) Ht) as (r & Hr & He).
  exists r. unfold get_cities_by_coordinates. rewrite repo_run, Hs, Hr.
  split; [reflexivity | split; [exact He |]].
  apply serves_empty_log. exact Hw.
Qed.

Lemma cached_empty m self s t0 w args kw bound :
  reads_empty B s t0 -> serves_empty self s t0 w ->
  bind_args (signature m) args kw = Some bound ->
  exists r,
    fst (cached B m self args kw w) = Ok r
    /\ is_empty_result r = true
    /\ serves_empty self s t0 (snd (cached B m self args kw w)).
Proof.
  intros [_ Hrepo] (Hs & Ht & Hc) Hb.
  set (k := make_key (self_id self) args kw).
  destruct (cache_find k (caches w m)) as [v |] eqn:F.
  - assert (Hv : is_empty_result v = true).
    { apply (Hc m k v); [apply cache_find_in; exact F | reflexivity]. }
    exists v. rewrite (cached_hit B _ _ _ _ _ F). fold k.
    split; [reflexivity | split; [exact Hv |]].
    split; [exact Hs | split; [exact Ht |]]. simpl.
    intros m' k' v' Hin Hown.
    destruct (Method_eqb m m') eqn:E; [| eapply Hc; eauto].
    apply Method_eqb_eq in E. subst m'.
    apply cache_touch_in in Hin. destruct Hin as [Hin | Hin].
    + inversion Hin; subst. exact Hv.
    + eapply Hc; eauto.
  - destruct (call_method_bound B m self args kw Hb) as (op & _ & Hcall).
    destruct (Hrepo op (List.length (trace w)) Ht) as (r & Hr & He).
    exists r. rewrite (cached_miss B _ _ _ _ _ F), Hcall, repo_run, Hs, Hr.
    fold k. split; [reflexivity | split; [exact He |]].
    split; [exact Hs | split].
    + simpl. rewrite length_app. lia.
    + simpl. intros m' k' v' Hin Hown.
      destruct (Method_eqb m m') eqn:E; [| eapply Hc; eauto].
      apply Method_eqb_eq in E. subst m'.
      apply cache_store_in in Hin. destruct Hin as [Hin | Hin].
      * inversion Hin; subst. exact He.
      * eapply Hc; eauto.
Qed.

(** C5. Outside a worker, once the managers are set up and the schema
    check has returned, construction returns the facade whatever the
    row-count query and the import do: an exception of the check is caught
    and answered by one fallback import, which cannot raise.  When
    ingestion fails entirely the store is left as the schema check left
    it; if that store is empty, the facade reports a row count of zero and
    every read returns an empty result, now and after any further
    reads. *)
Theorem init_survives_failed_ingestion
    db_uri persistent_flag w self0 wid w0 w1 :
  is_worker_env (environ w) = false ->
  setup B db_uri persistent_flag w = (Ok (self0, wid), w0) ->
  ensure_schema_exists B self0 w0 = (Ok tt, w1) ->
  let facade := set_persistent self0 persistent_flag in
  exists w',
    init B db_uri persistent_flag w = (Ok facade, w')
    /\ (forall e wc,
          bootstrap_check B self0 w1 = (Raise e, wc) ->
          wc = log_event EvGetTableInfo w1
          /\ w' = snd (import_city_data B self0 None DEFAULT_BATCH_SIZE wc))
    /\ (ingestion_fails B (store w1) ->
        store w' = store w1
        /\ (unused_id (next_id w) w ->
            reads_empty B (store w1) (List.length (trace w')) ->
            let degraded :=
              serves_empty facade (store w1) (List.length (trace w')) in
            degraded w'
            /\ forall ww,
                 degraded ww ->
                 (exists info,
                    get_table_info B facade ww =
                      (Ok info, log_event EvGetTableInfo ww)
                    /\ row_count info = Some 0%Z
                    /\ degraded (log_event EvGetTableInfo ww))
                 /\ (forall m args kw bound,
                       bind_args (signature m) args kw = Some bound ->
                       exists r,
                         fst (cached B m facade args kw ww) = Ok r
                         /\ is_empty_result r = true
                         /\ degraded (snd (cached B m facade args kw ww)))
                 /\ (forall lat lng radius_km,
                       exists r,
                         fst (get_cities_by_coordinates B facade lat lng
                                radius_km ww) = Ok r
                         /\ is_empty_result r = true
                         /\ degraded
                              (snd (get_cities_by_coordinates B facade lat
                                      lng radius_km ww))))).
Proof.
  intros Hw Hs He facade.
  set (w' := match bootstrap_check B self0 w1 with
             | (Ok _, wc) => wc
             | (Raise _, wc) =>
                 snd (import_city_data B self0 None DEFAULT_BATCH_SIZE wc)
             end).
  assert (Hinit : init B db_uri persistent_flag w = (Ok facade, w')).
  { rewrite (init_standalone B _ _ _ Hw), Hs, (bootstrap_run _ _ He).
    reflexivity. }
  exists w'. split; [exact Hinit |]. split.
  - intros e wc Hc. unfold w'. rewrite Hc.
    destruct (bootstrap_check_raises B _ _ Hc) as [-> _]. auto.
  - intros Hfail.
    assert (Hstore : store w' = store w1).
    { unfold w'.
      pose proof (bootstrap_check_store_failed self0 w1 Hfail) as Hc.
      destruct (bootstrap_check B self0 w1) as [[[] | e] wc] eqn:E;
        simpl in Hc; [exact Hc |].
      rewrite import_city_data_store_failed; rewrite Hc; auto. }
    split; [exact Hstore |].
    intros Hfresh Hempty degraded.
    assert (Hw' : degraded w').
    { unfold degraded, serves_empty. repeat split; auto.
      intros m k v Hin Hown.
      pose proof (preserves_init B db_uri persistent_flag w)
        as (_ & C & _).
      rewrite Hinit in C. simpl in C. rewrite C in Hin.
      exfalso. apply (Hfresh m k v Hin).
      destruct (setup_ok B _ _ _ Hs) as (_ & Hid & _).
      rewrite Hown. simpl. f_equal. exact Hid. }
    split; [exact Hw' |].
    intros ww Hww. split; [| split].
    + apply get_table_info_empty; assumption.
    + intros m args kw bound Hb. eapply cached_empty; eassumption.
    + intros lat lng radius_km. apply coordinates_empty; assumption.
Qed.

End Degradation.

(** * The facade at work *)

(** The statements above at concrete worlds of the [Demo] backend. *)

Lemma import_city_data_populated_noop_witness :
  populated Demo.backend (store populated_world)
  /\ import_city_data Demo.backend Demo.facade None DEFAULT_BATCH_SIZE
       populated_world =
     (Ok true, log_event EvGetTableInfo populated_world).
Proof.
  assert (H : populated Demo.backend (store populated_world)).
  { intros t. exists (mkTableInfo [] (Some 2%Z)), 2%Z.
    split; [reflexivity | split; reflexivity]. }
  split; [exact H |].
  exact (proj1 (import_city_data_populated_noop (B := Demo.backend)
                  Demo.facade None DEFAULT_BATCH_SIZE populated_world H)).
Defined.

Lemma import_city_data_first_import_returns_witness :
  let w := empty_world in
  let info := mkTableInfo [] (Some 0%Z) in
  let w2 := snd (import_from_csv Demo.backend None DEFAULT_BATCH_SIZE true
                   (log_event EvGetTableInfo w)) in
  fst (get_table_info Demo.backend Demo.facade w) = Ok info
  /\ (dict_get_row_count info <= 0)%Z
  /\ import_from_csv Demo.backend None DEFAULT_BATCH_SIZE true
       (log_event EvGetTableInfo w) = (Ok 2%Z, w2)
  /\ import_city_data Demo.backend Demo.facade None DEFAULT_BATCH_SIZE w =
     (Ok (2 >? 0)%Z, w2).
Proof.
  intros w info w2.
  assert (H1 : fst (get_table_info Demo.backend Demo.facade w) = Ok info)
    by reflexivity.
  assert (H2 : (dict_get_row_count info <= 0)%Z) by (apply Z.le_refl).
  assert (H3 : import_from_csv Demo.backend None DEFAULT_BATCH_SIZE true
                 (log_event EvGetTableInfo w) = (Ok 2%Z, w2))
    by reflexivity.
  split; [exact H1 | split; [exact H2 | split; [exact H3 |]]].
  exact (proj1 (import_city_data_first_import_returns Demo.backend
                  Demo.facade None DEFAULT_BATCH_SIZE w H1 H2 H3)).
Defined.



Lemma import_city_data_never_raises_witness :
  let w := Demo.world Faulty.leftover_store None in
  let e := Exception "DataImportError" "unreadable city data" in
  let w1 := snd (import_try Faulty.legacy Demo.facade None
                   DEFAULT_BATCH_SIZE w) in
  import_try Faulty.legacy Demo.facade None DEFAULT_BATCH_SIZE w =
    (Raise e, w1)
  /\ Demo.rows (store w1) = [Demo.paris]
  /\ exists w' wd wx,
       import_city_data Faulty.legacy Demo.facade None DEFAULT_BATCH_SIZE w =
         (Ok true, w')
       /\ new_events w1 w' =
          [EvDownload true; EvExecute DELETE_SQL;
           EvImportFromCsv (Some "/var/geodash/cities.csv")
             DEFAULT_BATCH_SIZE false]
       /\ be_execute Faulty.legacy DELETE_SQL (List.length (trace wd))
            (store wd) = (Ok tt, store wx)
       /\ Demo.rows (store wd) = [Demo.paris]
       /\ Demo.rows (store wx) = []
       /\ be_import_from_csv Faulty.legacy (Some "/var/geodash/cities.csv")
            DEFAULT_BATCH_SIZE false (List.length (trace wx)) (store wx) =
          (Ok 2%Z, store w')
       /\ Demo.rows (store w') = [Demo.paris; Demo.geneva].
Proof.
  intros w e w1.
  assert (H : import_try Faulty.legacy Demo.facade None
                DEFAULT_BATCH_SIZE w = (Raise e, w1)) by reflexivity.
  split; [exact H |]. split; [reflexivity |].
  pose (wd0 := snd (download_city_data Faulty.legacy true w1)).
  pose (wx0 := snd (execute Faulty.legacy Demo.facade DELETE_SQL wd0)).
  assert (Hd0 : download_city_data Faulty.legacy true w1 =
                (Ok "/var/geodash/cities.csv", wd0)) by reflexivity.
  assert (Hx0 : execute Faulty.legacy Demo.facade DELETE_SQL wd0 =
                (Ok tt, wx0)) by reflexivity.
  assert (Hi0 : fst (import_from_csv Faulty.legacy
                       (Some "/var/geodash/cities.csv") DEFAULT_BATCH_SIZE
                       false wx0) = Ok 2%Z) by reflexivity.
  destruct (proj2 (import_city_data_never_raises Faulty.legacy Demo.facade
                     None DEFAULT_BATCH_SIZE w) e w1 H)
    as (b & w' & Hcall
        & [(e' & Hd & _)
          | [(p' & wd & e' & Hd & Hx & _)
            | (p' & wd & wx & r & Hd & Hx & Hi & Hb & Hev & _ & Bx & Bi)]]).
  - rewrite Hd0 in Hd. discriminate Hd.
  - rewrite Hd0 in Hd. inversion Hd; subst p' wd.
    rewrite Hx0 in Hx. discriminate Hx.
  - rewrite Hd0 in Hd. inversion Hd; subst p' wd.
    rewrite Hx0 in Hx. inversion Hx; subst wx.
    assert (Hr : r = Ok 2%Z) by (rewrite Hi in Hi0; exact Hi0).
    subst r.
    assert (Hw' : w' = snd (import_from_csv Faulty.legacy
                              (Some "/var/geodash/cities.csv")
                              DEFAULT_BATCH_SIZE false wx0))
      by (rewrite Hi; reflexivity).
    exists w', wd0, wx0.
    split; [rewrite Hcall, Hb; reflexivity |].
    split; [exact Hev |]. split; [exact Bx |].
    split; [reflexivity |]. split; [reflexivity |].
    split; [exact Bi |].
    rewrite Hw'. reflexivity.
Defined.


Lemma init_survives_failed_ingestion_witness :
  let w := offline_world in
  let self0 :=
    mkCityData 0 (Some ("sqlite:////var/geodash/cities.db", false)) None in
  let w0 := snd (setup Demo.backend None false w) in
  let w1 := snd (ensure_schema_exists Demo.backend self0 w0) in
  let facade := set_persistent self0 false in
  is_worker_env (environ w) = false
  /\ setup Demo.backend None false w = (Ok (self0, "standalone"), w0)
  /\ ensure_schema_exists Demo.backend self0 w0 = (Ok tt, w1)
  /\ ingestion_fails Demo.backend (store w1)
  /\ unused_id (next_id w) w
  /\ (forall t0, reads_empty Demo.backend (store w1) t0)
  /\ exists w',
       init Demo.backend None false w = (Ok facade, w')
       /\ store w' = store w1
       /\ exists r,
            fst (search_cities Demo.backend facade [VStr "Paris"] [] w') =
              Ok r
            /\ is_empty_result r = true.
Proof.
  intros w self0 w0 w1 facade.
  assert (Hst : is_worker_env (environ w) = false) by reflexivity.
  assert (Hs : setup Demo.backend None false w =
               (Ok (self0, "standalone"), w0)) by reflexivity.
  assert (He : ensure_schema_exists Demo.backend self0 w0 = (Ok tt, w1))
    by reflexivity.
  assert (Hfail : ingestion_fails Demo.backend (store w1)).
  { split; intros; eexists; reflexivity. }
  assert (Hfresh : unused_id (next_id w) w).
  { intros m k v Hin. destruct Hin. }
  assert (Hempty : forall t0, reads_empty Demo.backend (store w1) t0).
  { intros t0. split.
    - intros t _. eexists. split; reflexivity.
    - intros op t _. eexists. split; [reflexivity |].
      destruct op; reflexivity. }
  split; [exact Hst |]. split; [exact Hs |]. split; [exact He |].
  split; [exact Hfail |]. split; [exact Hfresh |]. split; [exact Hempty |].
  destruct (init_survives_failed_ingestion Demo.backend None false w
              Hst Hs He) as (w' & Hinit & _ & Hdeg).
  destruct (Hdeg Hfail) as (Hstore & Hreads).
  destruct (Hreads Hfresh (Hempty _)) as (Hw' & Hall).
  destruct (Hall w' Hw') as (_ & Hcached & _).
  destruct (Hcached MSearchCities [VStr "Paris"] []
              [VStr "Paris"; VInt 10; VNone; VNone; VNone; VNone] eq_refl)
    as (r & Hr & Hre & _).
  exists w'. split; [exact Hinit |]. split; [exact Hstore |].
  exists r. split; [exact Hr | exact Hre].
Defined.



Lemma cached_call_keyed_by_call_witness :
  let w := populated_world in
  let args := [VStr "Paris"] in
  let kw := [("user_lat", VNone)] in
  let kw' := [("user_lat", VInt 40)] in
  let bound' := [VStr "Paris"; VInt 10; VNone; VInt 40; VNone; VNone] in
  let v := RRecords [Demo.paris] in
  let w1 := snd (search_cities Demo.backend Demo.facade args kw w) in
  search_cities Demo.backend Demo.facade args kw w = (Ok v, w1)
  /\ (args, kw') <> (args, kw)
  /\ bind_args (signature MSearchCities) args kw' = Some bound'
  /\ cache_find (make_key (self_id Demo.facade) args kw')
       (caches w MSearchCities) = None
  /\ (exists w2,
        search_cities Demo.backend Demo.facade args kw w1 = (Ok v, w2)
        /\ new_events w1 w2 = [])
  /\ new_events w1
       (snd (search_cities Demo.backend Demo.facade args kw' w1)) =
     [EvRepo (OpSearch (VStr "Paris") (VInt 10) VNone (VInt 40) VNone
                VNone)].
Proof.
  intros w args kw kw' bound' v w1.
  assert (H1 : search_cities Demo.backend Demo.facade args kw w = (Ok v, w1))
    by reflexivity.
  assert (Hdiff : (args, kw') <> (args, kw)) by (intros H; discriminate H).
  assert (Hb : bind_args (signature MSearchCities) args kw' = Some bound')
    by reflexivity.
  assert (Hnone : cache_find (make_key (self_id Demo.facade) args kw')
                    (caches w MSearchCities) = None) by reflexivity.
  split; [exact H1 |]. split; [exact Hdiff |]. split; [exact Hb |].
  split; [exact Hnone |].
  destruct (cached_call_keyed_by_call Demo.backend MSearchCities Demo.facade
              args kw w) as (Hsame & Hother).
  split.
  - destruct (Hsame v w1 H1) as (w2 & H2 & Hq & _).
    exists w2. split; [exact H2 | exact Hq].
  - destruct (proj1 (Hother args kw' bound' Hdiff Hb) Hnone)
      as (op & Hop & _ & Hev).
    inversion Hop; subst op. exact Hev.
Defined.

(** C1 as stated does not hold.  The same argument values, passed once by
    position and once by keyword, make two different keys, and the second
    call goes to the repository again; and a call whose arguments differ
    from those of the call before it is answered from the cache when an
    earlier call left its own entry there. *)
Lemma cached_call_counterexample :
  (let w := populated_world in
   let search := search_cities Demo.backend Demo.facade in
   let w1 := snd (search [VStr "Paris"; VInt 10] [] w) in
   let w2 := snd (search [VStr "Paris"] [("limit", VInt 10)] w1) in
   bind_args (signature MSearchCities) [VStr "Paris"; VInt 10] [] =
     bind_args (signature MSearchCities) [VStr "Paris"]
       [("limit", VInt 10)]
   /\ fst (search [VStr "Paris"; VInt 10] [] w) =
      fst (search [VStr "Paris"] [("limit", VInt 10)] w1)
   /\ new_events w1 w2 =
      [EvRepo (OpSearch (VStr "Paris") (VInt 10) VNone VNone VNone VNone)])
  /\ (let w := populated_world in
      let get := get_city Demo.backend Demo.facade in
      let w1 := snd (get [VInt 1] [] w) in
      let w2 := snd (get [VInt 2] [] w1) in
      let w3 := snd (get [VInt 1] [] w2) in
      [VInt 2] <> [VInt 1]
      /\ fst (get [VInt 1] [] w2) = Ok (ROptRecord (Some Demo.paris))
      /\ new_events w2 w3 = []).
Proof.
  split.
  - repeat split.
  - split; [| split; reflexivity].
    intros H.
    assert (E : PyVal_eqb (VInt 2) (VInt 1) = true)
      by (apply PyVal_eqb_eq; congruence).
    discriminate E.
Qed.

Lemma lru_cache_capacity_witness :
  let other :=
    mkCityData 1 (Some ("sqlite:///cities.db", false)) (Some false) in
  let w1 := snd (get_countries Demo.backend Demo.facade [] []
                   populated_world) in
  let v := RStrings ["France"; "Switzerland"] in
  let w2 := snd (get_countries Demo.backend other [] [] w1) in
  cache_find (make_key (self_id other) [] []) (caches w1 MGetCountries) =
    None
  /\ List.length (caches w1 MGetCountries) = maxsize MGetCountries
  /\ get_countries Demo.backend other [] [] w1 = (Ok v, w2)
  /\ cache_keys (caches w1 MGetCountries) = [make_key 0 [] []]
  /\ caches w2 MGetCountries = [(make_key 1 [] [], v)].
Proof.
  intros other w1 v w2.
  assert (F : cache_find (make_key (self_id other) [] [])
                (caches w1 MGetCountries) = None) by reflexivity.
  assert (L : List.length (caches w1 MGetCountries) = maxsize MGetCountries)
    by reflexivity.
  assert (H : get_countries Demo.backend other [] [] w1 = (Ok v, w2))
    by reflexivity.
  split; [exact F |]. split; [exact L |]. split; [exact H |].
  split; [reflexivity |].
  destruct (lru_cache_capacity Demo.backend)
    as (_ & _ & _ & _ & _ & Hevict).
  exact (Hevict MGetCountries other [] [] w1 v w2 F L H).
Defined.

(** * Further properties *)

(** ** More on [import_city_data] *)

Section MoreImport.

Context {Store : Type} (B : Backend Store).
Implicit Types (w : World Store) (self : CityData).

Lemma preserves_import_retry self batch_size :
  preserves is_import_event
    (try_except (import_retry B self batch_size) (fun _ => ret false)).
Proof.
  unfold import_retry, download_city_data, execute, import_from_csv.
  auto 10 with frames.
Qed.

(** The recovery branch, with its log. *)
Lemma import_retry_trace self batch_size w1 :
  exists b w' recovery,
    try_except (import_retry B self batch_size) (fun _ => ret false) w1 =
      (Ok b, w')
    /\ trace w' = trace w1 ++ recovery
    /\ (recovery = [EvDownload true]
        \/ recovery = [EvDownload true; EvExecute DELETE_SQL]
        \/ exists p,
             recovery =
             [EvDownload true; EvExecute DELETE_SQL;
              EvImportFromCsv (Some p) batch_size false])
    /\ (b = true ->
        exists p wx n,
          import_from_csv B (Some p) batch_size false wx = (Ok n, w')
          /\ (0 < n)%Z).
Proof.
  destruct (import_retry_run B self batch_size w1) as (b & w' & Hrun & Hcase).
  pose proof (preserves_import_retry self batch_size w1)
    as (_ & _ & _ & _ & evs & T & _).
  rewrite Hrun in T. simpl in T.
  pose proof (new_events_app _ _ _ T) as Hev.
  exists b, w', evs. split; [exact Hrun |]. split; [exact T |].
  destruct Hcase as [(e' & _ & Hb & H) | [(p' & wd & e' & _ & _ & Hb & H)
                    | (p' & wd & wx & r & _ & _ & Hi & Hb & H)]];
    rewrite Hev in H; subst evs.
  - split; [auto | intros Ht; congruence].
  - split; [auto | intros Ht; congruence].
  - split; [eauto |].
    intros Ht. destruct r as [n | e]; [| congruence].
    exists p', wx, n. split; [exact Hi |].
    subst b. destruct (n >? 0)%Z eqn:E; [lia | discriminate].
Qed.

(** X5. One call of [import_city_data] logs the row-count query, then at
    most the first import, then at most the recovery: the forced download,
    the delete only after it, the one retry only after the delete; and no
    recovery at all when a path was given. *)
Theorem import_city_data_log_shape self csv_path batch_size w :
  import_log_shape csv_path batch_size
    (new_events w (snd (import_city_data B self csv_path batch_size w))).
Proof.
  assert (Hshape : forall w' first recovery,
            trace w' = trace w ++ EvGetTableInfo :: first ++ recovery ->
            (first = [] \/
             first = [EvImportFromCsv csv_path batch_size true]) ->
            (recovery = [] \/
             csv_path = None /\
             (recovery = [EvDownload true]
              \/ recovery = [EvDownload true; EvExecute DELETE_SQL]
              \/ exists p,
                   recovery =
                   [EvDownload true; EvExecute DELETE_SQL;
                    EvImportFromCsv (Some p) batch_size false])) ->
            import_log_shape csv_path batch_size (new_events w w')).
  { intros w' first recovery T Hf Hr. exists first, recovery.
    split; [apply new_events_app; exact T | auto]. }
  unfold import_city_data, try_except at 1, import_try, bind.
  rewrite get_table_info_run.
  destruct (be_get_table_info B _ _) as [info | e0].
  - destruct (dict_get_row_count info >? 0)%Z.
    + apply (Hshape _ [] []); auto.
    + unfold import_from_csv. rewrite ext_run.
      destruct (fst (be_import_from_csv B csv_path batch_size true _ _))
        as [n | e].
      * apply (Hshape _ [EvImportFromCsv csv_path batch_size true] []);
          auto.
        simpl. rewrite <- app_assoc. reflexivity.
      * destruct csv_path as [p |].
        -- apply (Hshape _ [EvImportFromCsv (Some p) batch_size true] []);
             auto.
           simpl. rewrite <- app_assoc. reflexivity.
        -- match goal with
           | |- context [try_except _ _ ?w1] =>
               destruct (import_retry_trace self batch_size w1)
                 as (b & w' & rec & -> & T & Hrec & _)
           end.
           cbn [snd].
           apply (Hshape _ [EvImportFromCsv None batch_size true] rec);
             auto.
           rewrite T. simpl. rewrite <- !app_assoc. reflexivity.
  - destruct csv_path as [p |].
    + apply (Hshape _ [] []); auto.
    + match goal with
      | |- context [try_except _ _ ?w1] =>
          destruct (import_retry_trace self batch_size w1)
            as (b & w' & rec & -> & T & Hrec & _)
      end.
      cbn [snd].
      apply (Hshape _ [] rec); auto.
      rewrite T. simpl. rewrite <- !app_assoc. reflexivity.
Qed.

(** X4. [True] is earned: the call returns it only when the row count it
    read was positive, or when an import, the first or the retry, returned
    a positive count as its last step. *)
Theorem import_city_data_true_sound self csv_path batch_size w w' :
  import_city_data B self csv_path batch_size w = (Ok true, w') ->
  (exists info n,
     fst (get_table_info B self w) = Ok info
     /\ row_count info = Some n /\ (0 < n)%Z)
  \/ (exists p d wi n,
        import_from_csv B p batch_size d wi = (Ok n, w') /\ (0 < n)%Z).
Proof.
  unfold import_city_data, try_except at 1, import_try, bind.
  rewrite get_table_info_run. simpl fst.
  destruct (be_get_table_info B _ _) as [info | e0].
  - destruct (dict_get_row_count info >? 0)%Z eqn:Ec.
    + intros _. left. exists info.
      unfold dict_get_row_count in Ec.
      destruct (row_count info) as [n |]; [| discriminate].
      exists n. repeat split; auto. lia.
    + destruct (import_from_csv B csv_path batch_size true
                  (log_event EvGetTableInfo w)) as [[n | e] w2] eqn:Hi.
      * unfold ret. intros H. inversion H; subst.
        right. exists csv_path, true, (log_event EvGetTableInfo w), n.
        split; [exact Hi | lia].
      * destruct csv_path as [p |]; [discriminate |].
        destruct (import_retry_trace self batch_size w2)
          as (b & w3 & rec & Hrun & _ & _ & Htrue).
        rewrite Hrun. intros H. inversion H; subst.
        destruct (Htrue eq_refl) as (p & wx & n & Hi' & Hn).
        right. exists (Some p), false, wx, n. auto.
  - destruct csv_path as [p |]; [discriminate |].
    destruct (import_retry_trace self batch_size (log_event EvGetTableInfo w))
      as (b & w3 & rec & Hrun & _ & _ & Htrue).
    rewrite Hrun. intros H. inversion H; subst.
    destruct (Htrue eq_refl) as (p & wx & n & Hi' & Hn).
    right. exists (Some p), false, wx, n. auto.
Qed.

End MoreImport.

(** ** More on construction *)

Section MoreConstruction.

Context {Store : Type} (B : Backend Store).
Implicit Types (w : World Store) (self : CityData).

Lemma import_city_data_after_try self csv_path batch_size w :
  exists evs,
    trace (snd (import_city_data B self csv_path batch_size w)) =
    trace (snd (import_try B self csv_path batch_size w)) ++ evs.
Proof.
  unfold import_city_data, try_except at 1.
  destruct (import_try B self csv_path batch_size w) as [[b | e] w1].
  - exists []. rewrite app_nil_r. reflexivity.
  - destruct csv_path as [p |].
    + exists []. rewrite app_nil_r. reflexivity.
    + destruct (preserves_import_retry B self batch_size w1)
        as (_ & _ & _ & _ & evs & T & _).
      exists evs. exact T.
Qed.

(** X3. A table-info dictionary without ['row_count'] counts as an empty
    table on both paths: [import_city_data] goes on to the import, and the
    check of [__init__] raises [KeyError], which [__init__] answers with the
    fallback import. *)
Theorem missing_row_count_means_empty self csv_path batch_size w info :
  fst (get_table_info B self w) = Ok info ->
  row_count info = None ->
  (exists evs,
     new_events w (snd (import_city_data B self csv_path batch_size w)) =
     EvGetTableInfo :: EvImportFromCsv csv_path batch_size true :: evs)
  /\ bootstrap_check B self w =
     (Raise (KeyError "row_count"), log_event EvGetTableInfo w)
  /\ forall db_uri persistent_flag w_init wid w0,
       is_worker_env (environ w_init) = false ->
       setup B db_uri persistent_flag w_init = (Ok (self, wid), w0) ->
       ensure_schema_exists B self w0 = (Ok tt, w) ->
       init B db_uri persistent_flag w_init =
       (Ok (set_persistent self persistent_flag),
        snd (import_city_data B self None DEFAULT_BATCH_SIZE
               (log_event EvGetTableInfo w))).
Proof.
  intros Hi Hr.
  assert (Hcheck : bootstrap_check B self w =
                   (Raise (KeyError "row_count"),
                    log_event EvGetTableInfo w)).
  { unfold bootstrap_check, bind at 1. rewrite get_table_info_run in *.
    simpl in Hi. rewrite Hi, Hr. reflexivity. }
  split; [| split; [exact Hcheck |]].
  - destruct (import_city_data_after_try self csv_path batch_size w)
      as (evs & T).
    assert (Htry : trace (snd (import_try B self csv_path batch_size w)) =
                   trace w ++ [EvGetTableInfo;
                               EvImportFromCsv csv_path batch_size true]).
    { unfold import_try, bind. rewrite get_table_info_run in *.
      simpl in Hi. rewrite Hi. unfold dict_get_row_count. rewrite Hr.
      simpl. unfold import_from_csv. rewrite ext_run.
      destruct (fst (be_import_from_csv B csv_path batch_size true _ _));
        simpl; rewrite <- app_assoc; reflexivity. }
    exists evs. apply new_events_app. rewrite T, Htry, <- app_assoc.
    reflexivity.
  - intros db_uri persistent_flag w_init wid w0 Hw Hs He.
    rewrite (init_standalone B _ _ _ Hw), Hs, (bootstrap_run B _ _ He).
    rewrite Hcheck. reflexivity.
Qed.

(** X1. Construction raises exactly when a manager or repository cannot be
    set up or, outside a worker, when the schema check raises; the
    exception is that one, and nothing else was called after it. *)
Theorem init_raises_iff db_uri persistent_flag w e w' :
  init B db_uri persistent_flag w = (Raise e, w') <->
  setup B db_uri persistent_flag w = (Raise e, w')
  \/ (is_worker_env (environ w) = false
      /\ exists self0 wid w0,
           setup B db_uri persistent_flag w = (Ok (self0, wid), w0)
           /\ ensure_schema_exists B self0 w0 = (Raise e, w')).
Proof.
  destruct (is_worker_env (environ w)) eqn:Hw.
  - rewrite (init_worker B _ _ _ Hw).
    destruct (setup B db_uri persistent_flag w) as [[[self0 wid] | e0] w0].
    + split; [discriminate |].
      intros [H | (H & _)]; discriminate.
    + split; [intros H; left; inversion H; reflexivity |].
      intros [H | (H & _)]; [inversion H; reflexivity | discriminate].
  - rewrite (init_standalone B _ _ _ Hw).
    destruct (setup B db_uri persistent_flag w) as [[[self0 wid] | e0] w0].
    + destruct (ensure_schema_exists B self0 w0) as [[[] | e1] w1] eqn:He.
      * rewrite (bootstrap_run B _ _ He). split; [discriminate |].
        intros [H | (_ & s & i & w2 & Hs & He')]; [discriminate |].
        inversion Hs; subst. rewrite He in He'. discriminate.
      * unfold bootstrap, bind at 1. rewrite He. split.
        -- intros H. right. split; [reflexivity |].
           exists self0, wid, w0. split; [reflexivity |].
           rewrite He. inversion H. reflexivity.
        -- intros [H | (_ & s & i & w2 & Hs & He')]; [discriminate |].
           inversion Hs; subst. rewrite He in He'.
           inversion He'. reflexivity.
    + split; [intros H; left; inversion H; reflexivity |].
      intros [H | (_ & s & i & w2 & Hs & _)];
        [inversion H; reflexivity | discriminate].
Qed.

Lemma init_component_trace c w r w' :
  init_component B c w = (r, w') -> trace w' = trace w ++ [EvInit c].
Proof.
  intros H. pose proof (ext_new_events (EvInit c) (be_init B c) w) as T.
  unfold init_component in H. rewrite H in T. exact T.
Qed.

Lemma preserves_setup_explicit uri persistent_flag :
  preserves is_init_event (setup B (Some uri) persistent_flag).
Proof.
  unfold setup, resolve_db_uri, init_component. auto 20 with frames.
Qed.

(** X2. [get_data_directory] is consulted only when no URI is given; a URI
    that is given reaches [DatabaseManager] as it is, the default one is
    [sqlite:///] followed by [cities.db] in the data directory; and the
    managers and repositories are created in the order of the source,
    [DatabaseManager] first. *)
Theorem setup_call_order db_uri persistent_flag w :
  (forall u,
     db_uri = Some u ->
     ~ In EvGetDataDirectory
         (new_events w (snd (setup B db_uri persistent_flag w))))
  /\ forall self0 wid w0,
       setup B db_uri persistent_flag w = (Ok (self0, wid), w0) ->
       exists uri,
         db_manager self0 = Some (uri, persistent_flag)
         /\ match db_uri with
            | Some u =>
                uri = u
                /\ new_events w w0 = component_events uri persistent_flag
            | None =>
                (exists data_dir,
                   fst (be_get_data_directory B (List.length (trace w))
                          (store w)) = Ok data_dir
                   /\ uri =
                      ("sqlite:///" ++ os_path_join data_dir "cities.db")%string)
                /\ new_events w w0 =
                   EvGetDataDirectory :: component_events uri persistent_flag
            end.
Proof.
  split.
  - intros u -> Hin.
    apply (frame_new_events (preserves_setup_explicit u persistent_flag w))
      in Hin.
    discriminate.
  - intros self0 wid w0.
    unfold setup, bind at 1. unfold alloc at 1.
    set (wa := {| store := store w; trace := trace w; caches := caches w;
                  uses := uses w; environ := environ w;
                  next_id := S (next_id w) |}).
    unfold bind at 1.
    destruct (resolve_db_uri B db_uri wa) as [[uri | e] wb] eqn:Hr;
      [| discriminate].
    unfold bind at 1, getenv_worker_id at 1.
    unfold bind.
    repeat match goal with
    | |- context [init_component B ?c ?x] =>
        let H := fresh "Hc" in
        destruct (init_component B c x) as [[[] | ?] ?] eqn:H;
        [apply init_component_trace in H | discriminate]
    end.
    unfold ret. intros Hfin. inversion Hfin; subst. clear Hfin.
    exists uri. split; [reflexivity |].
    assert (T0 : trace w0 = trace wb ++ component_events uri persistent_flag).
    { unfold component_events.
      repeat match goal with
      | H : trace ?a = trace ?b ++ _ |- context [trace ?a] =>
          rewrite H; clear H
      end.
      rewrite <- !app_assoc. reflexivity. }
    unfold resolve_db_uri in Hr. destruct db_uri as [u |].
    + inversion Hr; subst. split; [reflexivity |].
      apply new_events_app. exact T0.
    + unfold bind in Hr. rewrite ext_run in Hr.
      change (store wa) with (store w) in Hr.
      change (trace wa) with (trace w) in Hr.
      destruct (fst (be_get_data_directory B (List.length (trace w))
                       (store w))) as [d | e] eqn:Hd; [| discriminate].
      inversion Hr; subst. split.
      * exists d. split; reflexivity.
      * apply new_events_app. rewrite T0. simpl.
        rewrite <- app_assoc. reflexivity.
Qed.

End MoreConstruction.

(** ** More on the decorated read methods *)

Section MoreCachedReads.

Context {Store : Type} (B : Backend Store).
Implicit Types (w : World Store) (self : CityData) (m : Method).

(** Two calls have the same key only if they are made on the same instance
    and pass the same arguments in the same way. *)
Lemma make_key_inj_gen id args kw id' args' kw' :
  make_key id args kw = make_key id' args' kw' ->
  id = id' /\ args = args' /\ kw = kw'.
Proof.
  intros H.
  assert (Hid : id = id') by (unfold make_key in H; congruence).
  subst id'. split; [reflexivity |].
  eapply make_key_inj. exact H.
Qed.

(** A call of another method, or of no decorated method at all, leaves the
    cache of [m] as it is. *)
Lemma exec_other_method m c w :
  reads_method m c = false -> caches (exec B c w) m = caches w m.
Proof.
  intros Hc.
  assert (Hframe : forall w', frame any_event w w' -> caches w' m = caches w m)
    by (intros w' (_ & C & _); rewrite C; reflexivity).
  destruct c as [u p | s0 path bs | m' s0 args kw | s0 la ln r | s0 | s0
                | s0 exc]; cbn [exec].
  - apply Hframe, preserves_init.
  - apply Hframe. eapply frame_weaken;
      [| apply preserves_import_city_data]. reflexivity.
  - simpl in Hc.
    assert (Hne : m' <> m).
    { intros ->. rewrite Method_eqb_refl in Hc. discriminate. }
    pose proof (cached_uses B m' s0 args kw w) as Hu.
    destruct (cached B m' s0 args kw w) as [[v | e] w']; simpl.
    + apply (proj2 Hu m Hne).
    + rewrite (proj2 Hu). reflexivity.
  - apply Hframe, preserves_coordinates.
  - apply Hframe.
    apply (preserves_ext_ro any_event EvGetTableInfo (be_get_table_info B)).
    reflexivity.
  - apply Hframe, preserves_close.
  - unfold exit_. apply Hframe, preserves_close.
Qed.

Lemma run_other_method m calls :
  forall w,
    forallb (fun c => negb (reads_method m c)) calls = true ->
    caches (run B calls w) m = caches w m.
Proof.
  unfold run. induction calls as [| c calls IH]; intros w H; simpl in *.
  - reflexivity.
  - apply andb_true_iff in H. destruct H as [Hc Hrest].
    rewrite IH by exact Hrest.
    apply exec_other_method. destruct (reads_method m c);
      [discriminate | reflexivity].
Qed.

(** X6. The exception of a cached read is the repository's own, or the
    [TypeError] of a call that does not fit the signature.  A call that
    raised is not remembered: caches and history are as before, and the same
    call made again asks the repository again. *)
Theorem cached_failure_not_remembered m self args kw w e w' :
  cached B m self args kw w = (Raise e, w') ->
  caches w' = caches w /\ uses w' = uses w
  /\ ((bind_args (signature m) args kw = None /\ e = TypeError /\ w' = w)
      \/ exists bound op,
           bind_args (signature m) args kw = Some bound
           /\ method_op m bound = Some op
           /\ be_repo B op (List.length (trace w)) (store w) = Raise e
           /\ w' = log_event (EvRepo op) w
           /\ fst (cached B m self args kw w') =
              be_repo B op (List.length (trace w')) (store w')
           /\ new_events w' (snd (cached B m self args kw w')) = [EvRepo op]).
Proof.
  intros H.
  pose proof (cached_uses B m self args kw w) as Hu. rewrite H in Hu.
  destruct Hu as [U C]. split; [exact C | split; [exact U |]].
  destruct (cache_find (make_key (self_id self) args kw) (caches w m))
    as [v0 |] eqn:F.
  { rewrite (cached_hit B _ _ _ _ _ F) in H. discriminate. }
  destruct (bind_args (signature m) args kw) as [bound |] eqn:Hb.
  - right.
    destruct (call_method_bound B m self args kw Hb) as (op & Hop & Hcall).
    rewrite (cached_miss B _ _ _ _ _ F), Hcall, repo_run in H.
    destruct (be_repo B op (List.length (trace w)) (store w)) as [v | e0]
      eqn:Hr; [discriminate |].
    inversion H; subst e0 w'. clear H.
    exists bound, op. split; [reflexivity |]. split; [exact Hop |].
    split; [exact Hr |]. split; [reflexivity |].
    assert (F1 : cache_find (make_key (self_id self) args kw)
                   (caches (log_event (EvRepo op) w) m) = None) by exact F.
    destruct (cached_miss_bound B m self args kw _ F1 Hb)
      as (op' & Hop' & Hfst & T & _).
    assert (op' = op) by congruence. subst op'.
    split; [exact Hfst |]. apply new_events_app. exact T.
  - left. rewrite (cached_miss_unbound B _ _ _ _ _ F Hb) in H.
    inversion H. auto.
Qed.

(** X7. Only the calls of a decorated method change its cache.  A result
    that was cached stays through any sequence of other calls, imports,
    constructions and closes among them, and the same call then returns it
    again without asking the repository. *)
Theorem cached_result_outlives_other_calls m self args kw w v w1 calls :
  cached B m self args kw w = (Ok v, w1) ->
  forallb (fun c => negb (reads_method m c)) calls = true ->
  caches (run B calls w1) m = caches w1 m
  /\ exists w3,
       cached B m self args kw (run B calls w1) = (Ok v, w3)
       /\ new_events (run B calls w1) w3 = []
       /\ store w3 = store (run B calls w1).
Proof.
  intros H Hcalls.
  pose proof (run_other_method m calls w1 Hcalls) as C.
  split; [exact C |].
  apply cached_stores_result in H. rewrite <- C in H.
  destruct (cached_hit_quiet B m self args kw _ H) as (w3 & H3 & T & S).
  exists w3. split; [exact H3 |]. split; [| exact S].
  apply new_events_app. rewrite app_nil_r. exact T.
Qed.

(** X8. The cache of [get_countries] has room for one entry, and it is
    shared by all instances: when two instances call in turn, each call
    drops the entry of the other, so every call goes to the repository. *)
Theorem get_countries_serves_one_instance a b w va vb w1 w2 :
  List.length (caches w MGetCountries) <= 1 ->
  self_id a <> self_id b ->
  get_countries B a [] [] w = (Ok va, w1) ->
  get_countries B b [] [] w1 = (Ok vb, w2) ->
  caches w1 MGetCountries = [(make_key (self_id a) [] [], va)]
  /\ caches w2 MGetCountries = [(make_key (self_id b) [] [], vb)]
  /\ new_events w1 w2 = [EvRepo OpGetCountries]
  /\ new_events w2 (snd (get_countries B a [] [] w2)) =
     [EvRepo OpGetCountries].
Proof.
  unfold get_countries. intros Hlen Hab Ha Hb.
  assert (Hkeys : make_key (self_id b) [] [] <> make_key (self_id a) [] []).
  { intros H. apply make_key_inj_gen in H. destruct H as (H & _).
    auto. }
  assert (Hone : forall self w0 v w0',
            List.length (caches w0 MGetCountries) <= 1 ->
            cached B MGetCountries self [] [] w0 = (Ok v, w0') ->
            caches w0' MGetCountries = [(make_key (self_id self) [] [], v)]).
  { intros self w0 v w0' Hl Hc.
    destruct (cache_find (make_key (self_id self) [] [])
                (caches w0 MGetCountries)) as [v0 |] eqn:F.
    - rewrite (cached_hit B _ _ _ _ _ F) in Hc. inversion Hc; subst.
      rewrite caches_update.
      destruct (caches w0 MGetCountries) as [| [k1 v1] [| p c]];
        [discriminate | | simpl in Hl; lia].
      unfold cache_touch. cbn [cache_remove cache_find] in *.
      destruct (Key_eqb (make_key (self_id self) [] []) k1);
        [reflexivity | discriminate].
    - rewrite (cached_miss B _ _ _ _ _ F) in Hc.
      destruct (call_method B MGetCountries self [] [] w0) as [[v1 | e] wx];
        [| discriminate].
      inversion Hc; subst. rewrite caches_update.
      unfold cache_store. rewrite F.
      destruct (caches w0 MGetCountries) as [| [k1 v1'] [| p c]];
        [reflexivity | reflexivity | simpl in Hl; lia]. }
  assert (Ca : caches w1 MGetCountries = [(make_key (self_id a) [] [], va)])
    by (eapply Hone; eauto).
  assert (Cb : caches w2 MGetCountries = [(make_key (self_id b) [] [], vb)]).
  { eapply Hone; [| exact Hb]. rewrite Ca. simpl. lia. }
  split; [exact Ca |]. split; [exact Cb |].
  assert (Fb : cache_find (make_key (self_id b) [] [])
                 (caches w1 MGetCountries) = None).
  { rewrite Ca. apply cache_find_cons_other. exact Hkeys. }
  assert (Fa : cache_find (make_key (self_id a) [] [])
                 (caches w2 MGetCountries) = None).
  { rewrite Cb. apply cache_find_cons_other. auto. }
  destruct (cached_miss_bound B MGetCountries b [] [] w1 Fb eq_refl)
    as (op & Hop & _ & Tb & _).
  destruct (cached_miss_bound B MGetCountries a [] [] w2 Fa eq_refl)
    as (op' & Hop' & _ & Ta & _).
  inversion Hop; subst op. inversion Hop'; subst op'.
  rewrite Hb in Tb. simpl in Tb.
  split; apply new_events_app; assumption.
Qed.

(** Every key in a cache comes from a call that fitted the signature: this
    holds at the start and after each call. *)
Lemma exec_keys_well_formed c w :
  keys_well_formed w -> keys_well_formed (exec B c w).
Proof.
  intros Hwf.
  assert (Hframe : forall w', frame any_event w w' -> keys_well_formed w').
  { intros w' (_ & C & _) m k v Hin. rewrite C in Hin. eauto. }
  destruct c as [u p | s0 path bs | m' s0 args kw | s0 la ln r | s0 | s0
                | s0 exc]; cbn [exec].
  - apply Hframe, preserves_init.
  - apply Hframe. eapply frame_weaken;
      [| apply preserves_import_city_data]. reflexivity.
  - set (k := make_key (self_id s0) args kw).
    destruct (cache_find k (caches w m')) as [v0 |] eqn:F.
    + rewrite (cached_hit B _ _ _ _ _ F). fold k. simpl snd.
      intros m k1 v1 Hin. simpl in Hin.
      destruct (Method_eqb m' m) eqn:E; [| eauto].
      apply Method_eqb_eq in E. subst m.
      apply cache_touch_in in Hin. destruct Hin as [Hin | Hin]; [| eauto].
      inversion Hin; subst k1 v1.
      apply cache_find_in in F. eauto.
    + rewrite (cached_miss B _ _ _ _ _ F). fold k.
      pose proof (preserves_call_method B m' s0 args kw w) as (_ & C & _).
      unfold call_method in *.
      destruct (bind_args (signature m') args kw) as [bound |] eqn:Hb.
      * destruct (method_body B m' s0 bound w) as [[v1 | e] wx]; simpl in *.
        -- intros m k1 v1' Hin. simpl in Hin.
           destruct (Method_eqb m' m) eqn:E.
           ++ apply Method_eqb_eq in E. subst m.
              apply cache_store_in in Hin. destruct Hin as [Hin | Hin];
                [| eauto].
              inversion Hin; subst k1 v1'.
              exists (self_id s0), args, kw, bound. auto.
           ++ rewrite C in Hin. eauto.
        -- intros m k1 v1' Hin. rewrite C in Hin. eauto.
      * exact Hwf.
  - apply Hframe, preserves_coordinates.
  - apply Hframe.
    apply (preserves_ext_ro any_event EvGetTableInfo (be_get_table_info B)).
    reflexivity.
  - apply Hframe, preserves_close.
  - unfold exit_. apply Hframe, preserves_close.
Qed.

Lemma run_keys_well_formed calls :
  forall w, keys_well_formed w -> keys_well_formed (run B calls w).
Proof.
  unfold run. induction calls as [| c calls IH]; intros w H; simpl.
  - exact H.
  - apply IH, exec_keys_well_formed, H.
Qed.

(** X10. A call that does not fit the signature of its method is never
    answered from the cache, whatever was called before: it raises
    [TypeError], and neither the log nor the caches change. *)
Theorem ill_formed_call_raises (s : Store) env calls m self args kw :
  bind_args (signature m) args kw = None ->
  let w := run B calls (initial_world s env) in
  cache_find (make_key (self_id self) args kw) (caches w m) = None
  /\ cached B m self args kw w = (Raise TypeError, w).
Proof.
  intros Hb w.
  assert (Hwf : keys_well_formed w).
  { apply run_keys_well_formed. intros m0 k v Hin. destruct Hin. }
  assert (F : cache_find (make_key (self_id self) args kw) (caches w m) =
              None).
  { destruct (cache_find (make_key (self_id self) args kw) (caches w m))
      as [v |] eqn:F; [| reflexivity].
    apply cache_find_in in F.
    destruct (Hwf m _ _ F) as (id' & args' & kw' & bound & Hk & Hb').
    apply make_key_inj_gen in Hk. destruct Hk as (_ & -> & ->).
    congruence. }
  split; [exact F |].
  apply cached_miss_unbound; assumption.
Qed.

(** X15. Results are not shared between instances, not even between two
    facades over the same database: what one instance calls never answers
    the call of another, which asks the repository itself unless its own
    entry is in the cache. *)
Theorem cached_results_per_instance m a b args kw args' kw' bound' w :
  self_id a <> self_id b ->
  bind_args (signature m) args' kw' = Some bound' ->
  cache_find (make_key (self_id b) args' kw') (caches w m) = None ->
  let w1 := snd (cached B m a args kw w) in
  exists op,
    method_op m bound' = Some op
    /\ fst (cached B m b args' kw' w1) =
       be_repo B op (List.length (trace w1)) (store w1)
    /\ new_events w1 (snd (cached B m b args' kw' w1)) = [EvRepo op].
Proof.
  intros Hab Hb Hnone w1.
  assert (Hne : make_key (self_id b) args' kw' <>
                make_key (self_id a) args kw).
  { intros H. apply make_key_inj_gen in H. destruct H as (H & _). auto. }
  assert (F1 : cache_find (make_key (self_id b) args' kw') (caches w1 m) =
               None)
    by (apply cached_other_key_none; assumption).
  destruct (cached_miss_bound B m b args' kw' w1 F1 Hb)
    as (op & Hop & Hr & T & _).
  exists op. split; [exact Hop |]. split; [exact Hr |].
  apply new_events_app. exact T.
Qed.

End MoreCachedReads.

(** ** More on release *)

Section MoreRelease.

Context {Store : Type} (B : Backend Store).
Implicit Types (w : World Store) (self : CityData).

(** What a completed construction hands over. *)
Lemma init_ok db_uri persistent_flag w self w' :
  init B db_uri persistent_flag w = (Ok self, w') ->
  persistent self = Some persistent_flag
  /\ exists uri, db_manager self = Some (uri, persistent_flag).
Proof.
  intros H.
  assert (Hset : exists self0 wid w0,
            setup B db_uri persistent_flag w = (Ok (self0, wid), w0)
            /\ self = set_persistent self0 persistent_flag).
  { destruct (is_worker_env (environ w)) eqn:Hw.
    - rewrite (init_worker B _ _ _ Hw) in H.
      destruct (setup B db_uri persistent_flag w) as [[[self0 wid] | e] w0];
        [| discriminate].
      inversion H; subst. eauto.
    - rewrite (init_standalone B _ _ _ Hw) in H.
      destruct (setup B db_uri persistent_flag w) as [[[self0 wid] | e] w0];
        [| discriminate].
      destruct (bootstrap B self0 w0) as [[[] | e] w1]; [| discriminate].
      inversion H; subst. eauto. }
  destruct Hset as (self0 & wid & w0 & Hs & ->).
  destruct (setup_ok B _ _ _ Hs) as (_ & _ & _ & Hdb & _).
  split; [reflexivity | exact Hdb].
Qed.

(** X9. How a [with] block ends is settled at construction.  Around an
    instance made with [persistent=True] the block is its body and nothing
    else; around any other, the body is followed by one
    [DatabaseManager.close], and an exception of that close takes the place
    of whatever the body returned or raised. *)
Theorem with_block_of_constructed db_uri persistent_flag w self w0 :
  init B db_uri persistent_flag w = (Ok self, w0) ->
  forall A (body : CityData -> M Store A) w1,
    (persistent_flag = true -> with_block B self body w1 = body self w1)
    /\ (persistent_flag = false ->
        let wb := snd (body self w1) in
        trace (snd (with_block B self body w1)) = trace wb ++ [EvDbClose]
        /\ fst (with_block B self body w1) =
           match fst (be_db_close B (List.length (trace wb)) (store wb)) with
           | Ok _ => fst (body self w1)
           | Raise e' => Raise e'
           end).
Proof.
  intros H A body w1.
  destruct (init_ok _ _ _ H) as (Hp & uri & Hd).
  rewrite with_block_run. split.
  - intros ->. rewrite (close_persistent B _ _ Hp).
    destruct (body self w1); reflexivity.
  - intros ->. intros wb.
    rewrite close_transient by (rewrite ?Hd, ?Hp; discriminate).
    rewrite ext_run. fold wb.
    destruct (fst (be_db_close B (List.length (trace wb)) (store wb)))
      as [[] | e']; split; reflexivity.
Qed.

End MoreRelease.

(** ** The utilities *)

Section Utilities.

Implicit Types (s p q key : string) (keys : list string) (c : ascii).

(** *** Splitting a path *)

Lemma split_on_cons sep s : exists piece pieces,
  split_on sep s = piece :: pieces.
Proof.
  induction s as [| c s IH]; simpl; [eauto |].
  destruct (Ascii.eqb c sep); [eauto |].
  destruct IH as (piece & pieces & ->). eauto.
Qed.

Lemma split_on_app sep p q :
  split_on sep (p ++ String sep q) = split_on sep p ++ split_on sep q.
Proof.
  induction p as [| c p IH]; simpl.
  - rewrite Ascii.eqb_refl. reflexivity.
  - destruct (Ascii.eqb c sep); [rewrite IH; reflexivity |].
    rewrite IH. destruct (split_on_cons sep p) as (piece & pieces & ->).
    reflexivity.
Qed.

Lemma split_on_no_dot s : no_dot s = true -> split_on "." s = [s].
Proof.
  unfold no_dot. induction s as [| c s IH]; simpl; [reflexivity |].
  intros H. apply andb_true_iff in H. destruct H as [Hc Hs].
  destruct (Ascii.eqb c "."); [discriminate |].
  rewrite IH by exact Hs. reflexivity.
Qed.

(** The pieces of a path have no dot in them. *)
Lemma split_on_pieces s : forallb no_dot (split_on "." s) = true.
Proof.
  unfold no_dot. induction s as [| c s IH]; simpl; [reflexivity |].
  destruct (Ascii.eqb c ".") eqn:E; [exact IH |].
  destruct (split_on_cons "." s) as (piece & pieces & Hs).
  rewrite Hs in *. simpl in *. rewrite E. exact IH.
Qed.

(** Joining keys with dots and splitting again gives the keys back. *)
Lemma split_on_concat keys :
  keys <> [] -> forallb no_dot keys = true ->
  split_on "." (String.concat "." keys) = keys.
Proof.
  induction keys as [| k keys IH]; [congruence |].
  intros _ H. simpl in H. apply andb_true_iff in H. destruct H as [Hk Hks].
  destruct keys as [| k' keys].
  - simpl. apply split_on_no_dot. exact Hk.
  - change (String.concat "." (k :: k' :: keys))
      with (k ++ String "." (String.concat "." (k' :: keys)))%string.
    rewrite split_on_app, split_on_no_dot by exact Hk.
    rewrite IH by (congruence || exact Hks). reflexivity.
Qed.

(** *** Walking the dictionaries *)

Lemma safe_get_walk_resolve keys : forall value default,
  safe_get_walk keys value default =
  match resolve keys value with Some v => v | None => default end.
Proof.
  induction keys as [| k keys IH]; intros value default; simpl;
    [reflexivity |].
  destruct value as [a | l | items]; try reflexivity.
  destruct (dict_get k items); [apply IH | reflexivity].
Qed.

Lemma resolve_app keys keys' : forall value,
  resolve (keys ++ keys') value =
  match resolve keys value with
  | Some v => resolve keys' v
  | None => None
  end.
Proof.
  induction keys as [| k keys IH]; intros value; simpl; [reflexivity |].
  destruct value as [a | l | items]; try reflexivity.
  destruct (dict_get k items); [apply IH | reflexivity].
Qed.

(** The guard of [safe_get] does not change what the walk gives as soon as
    there is a key to look up. *)
Lemma safe_get_walk_guard data s default :
  safe_get data s default =
  safe_get_walk (split_on "." s) data default.
Proof.
  unfold safe_get.
  destruct (split_on_cons "." s) as (piece & pieces & ->).
  destruct data as [a | l | [| item items]]; reflexivity.
Qed.

(** X11. [safe_get] finds what the keys lead to: for keys without a dot,
    joined by dots, the result is the value reached by looking the keys up
    one after the other, and the default as soon as one of them is missing
    or the value at hand is not a dictionary. *)
Theorem safe_get_joined_keys data keys default :
  keys <> [] -> forallb no_dot keys = true ->
  safe_get data (String.concat "." keys) default =
  match resolve keys data with Some v => v | None => default end.
Proof.
  intros Hne Hdots.
  rewrite safe_get_walk_guard, split_on_concat by assumption.
  apply safe_get_walk_resolve.
Qed.

Lemma no_dot_neq key k : no_dot key = true -> no_dot k = false ->
  String.eqb key k = false.
Proof.
  intros H1 H2. destruct (String.eqb key k) eqn:E; [| reflexivity].
  apply String.eqb_eq in E. congruence.
Qed.

(** X12. An entry whose key has a dot in it cannot be reached: no path
    leads to it, and the dictionary answers every path as it would without
    that entry. *)
Theorem safe_get_dotted_key_unreachable k v items s default :
  no_dot k = false ->
  safe_get (JDict ((k, v) :: items)) s default =
  safe_get (JDict items) s default.
Proof.
  intros Hk. rewrite !safe_get_walk_guard.
  pose proof (split_on_pieces s) as Hp.
  destruct (split_on_cons "." s) as (piece & pieces & Hs).
  rewrite Hs in *. simpl in Hp. apply andb_true_iff in Hp.
  destruct Hp as [Hpiece _]. cbn [safe_get_walk dict_get].
  rewrite (no_dot_neq _ _ Hpiece Hk). reflexivity.
Qed.

(** X13. A path can be followed in two steps: looking up [p.q] is looking
    up [q] in what [p] leads to, and gives the default when [p] leads
    nowhere. *)
Theorem safe_get_path_composes data p q default :
  safe_get data (p ++ "." ++ q) default =
  match resolve (split_on "." p) data with
  | Some v => safe_get v q default
  | None => default
  end.
Proof.
  change (p ++ "." ++ q)%string with (p ++ String "." q)%string.
  rewrite safe_get_walk_guard, split_on_app, safe_get_walk_resolve,
    resolve_app.
  destruct (resolve (split_on "." p) data) as [v |]; [| reflexivity].
  rewrite safe_get_walk_guard, safe_get_walk_resolve. reflexivity.
Qed.

(** *** The issue link *)

Lemma string_forall_app P s s' :
  string_forall P (s ++ s') = string_forall P s && string_forall P s'.
Proof.
  induction s as [| c s IH]; simpl; [reflexivity |].
  rewrite IH, andb_assoc. reflexivity.
Qed.

Lemma count_char_app c s s' :
  count_char c (s ++ s') = count_char c s + count_char c s'.
Proof.
  induction s as [| c' s IH]; simpl; [reflexivity |].
  rewrite IH. lia.
Qed.

Lemma quote_byte_url_chars c : string_forall url_char (quote_byte c) = true.
Proof.
  destruct c as [[] [] [] [] [] [] [] []]; reflexivity.
Qed.

(** [quote] produces nothing but the characters of its alphabet. *)
Lemma quote_url_chars s : string_forall url_char (quote s) = true.
Proof.
  induction s as [| c s IH]; simpl; [reflexivity |].
  rewrite string_forall_app, quote_byte_url_chars, IH. reflexivity.
Qed.

Lemma count_char_absent P c s :
  string_forall P s = true -> P c = false -> count_char c s = 0.
Proof.
  intros Hs Hc. induction s as [| c' s IH]; simpl in *; [reflexivity |].
  apply andb_true_iff in Hs. destruct Hs as [Hc' Hs].
  destruct (Ascii.eqb c' c) eqn:E.
  - apply Ascii.eqb_eq in E. congruence.
  - rewrite IH by exact Hs. reflexivity.
Qed.

(** X14. Whatever the error, its message, the traceback and the context
    contain, the link for the new issue is one well-formed URL: the title
    and the body add no character outside the alphabet of [quote], so the
    link has the one [?] and the one [&] of the template, its two [=], and
    neither a space, a line break nor a [#]. *)
Theorem issue_url_well_formed class_name error_message error_traceback
    additional_context :
  let url :=
    issue_url class_name error_message error_traceback additional_context in
  (forall c, url_char c = false ->
     count_char c url =
     count_char c (GITHUB_ISSUES_URL ++ "/new?title=" ++ "&body="))
  /\ count_char "?" url = 1 /\ count_char "&" url = 1
  /\ count_char "=" url = 2 /\ count_char " " url = 0
  /\ count_char (ascii_of_nat 10) url = 0 /\ count_char "#" url = 0.
Proof.
  intros url.
  assert (H : forall c, url_char c = false ->
            count_char c url =
            count_char c (GITHUB_ISSUES_URL ++ "/new?title=" ++ "&body=")).
  { intros c Hc. unfold url, issue_url.
    rewrite !count_char_app.
    rewrite !(count_char_absent url_char c (quote _)
                (quote_url_chars _) Hc).
    lia. }
  split; [exact H |].
  repeat split; rewrite H by reflexivity; reflexivity.
Qed.

End Utilities.

(** * The further properties at work *)

(** On a database that cannot be written, construction raises the error of
    the schema check. *)
Lemma init_raises_iff_witness :
  let w := populated_world in
  let e :=
    Exception "OperationalError" "attempt to write a readonly database" in
  let self0 :=
    mkCityData 0 (Some ("sqlite:////var/geodash/cities.db", false)) None in
  let w0 := snd (setup Faulty.readonly None false w) in
  let w' := snd (ensure_schema_exists Faulty.readonly self0 w0) in
  is_worker_env (environ w) = false
  /\ setup Faulty.readonly None false w = (Ok (self0, "standalone"), w0)
  /\ ensure_schema_exists Faulty.readonly self0 w0 = (Raise e, w')
  /\ init Faulty.readonly None false w = (Raise e, w').
Proof.
  intros w e self0 w0 w'.
  assert (Hw : is_worker_env (environ w) = false) by reflexivity.
  assert (Hs : setup Faulty.readonly None false w =
               (Ok (self0, "standalone"), w0)) by reflexivity.
  assert (He : ensure_schema_exists Faulty.readonly self0 w0 = (Raise e, w'))
    by reflexivity.
  split; [exact Hw |]. split; [exact Hs |]. split; [exact He |].
  apply (proj2 (init_raises_iff Faulty.readonly None false w e w')).
  right. split; [exact Hw |].
  exists self0, "standalone", w0. split; [exact Hs | exact He].
Defined.

Lemma setup_call_order_witness :
  let w := empty_world in
  let uri := "sqlite:////var/geodash/cities.db" in
  let self0 := mkCityData 0 (Some (uri, true)) None in
  let w0 := snd (setup Demo.backend None true w) in
  setup Demo.backend None true w = (Ok (self0, "standalone"), w0)
  /\ new_events w w0 = EvGetDataDirectory :: component_events uri true.
Proof.
  intros w uri self0 w0.
  assert (Hs : setup Demo.backend None true w =
               (Ok (self0, "standalone"), w0)) by reflexivity.
  split; [exact Hs |].
  destruct (proj2 (setup_call_order Demo.backend None true w)
              self0 "standalone" w0 Hs) as (uri' & Hd & _ & Hev).
  assert (Hu : uri' = uri) by (simpl in Hd; congruence).
  rewrite Hu in Hev. exact Hev.
Defined.

Lemma missing_row_count_means_empty_witness :
  let w := populated_world in
  let info := mkTableInfo [] None in
  fst (get_table_info Faulty.legacy Demo.facade w) = Ok info
  /\ row_count info = None
  /\ bootstrap_check Faulty.legacy Demo.facade w =
     (Raise (KeyError "row_count"), log_event EvGetTableInfo w)
  /\ exists evs,
       new_events w
         (snd (import_city_data Faulty.legacy Demo.facade None
                 DEFAULT_BATCH_SIZE w)) =
       EvGetTableInfo :: EvImportFromCsv None DEFAULT_BATCH_SIZE true :: evs.
Proof.
  intros w info.
  assert (Hi : fst (get_table_info Faulty.legacy Demo.facade w) = Ok info)
    by reflexivity.
  assert (Hr : row_count info = None) by reflexivity.
  split; [exact Hi |]. split; [exact Hr |].
  destruct (@missing_row_count_means_empty _ Faulty.legacy Demo.facade None
              DEFAULT_BATCH_SIZE w info Hi Hr) as (Hev & Hcheck & _).
  split; [exact Hcheck | exact Hev].
Defined.

Lemma import_city_data_true_sound_witness :
  let w := empty_world in
  let w' := snd (import_city_data Demo.backend Demo.facade None
                   DEFAULT_BATCH_SIZE w) in
  import_city_data Demo.backend Demo.facade None DEFAULT_BATCH_SIZE w =
    (Ok true, w')
  /\ ((exists info n,
         fst (get_table_info Demo.backend Demo.facade w) = Ok info
         /\ row_count info = Some n /\ (0 < n)%Z)
      \/ exists p d wi n,
           import_from_csv Demo.backend p DEFAULT_BATCH_SIZE d wi = (Ok n, w')
           /\ (0 < n)%Z).
Proof.
  intros w w'.
  assert (H : import_city_data Demo.backend Demo.facade None
                DEFAULT_BATCH_SIZE w = (Ok true, w')) by reflexivity.
  split; [exact H |].
  exact (@import_city_data_true_sound _ Demo.backend Demo.facade None
           DEFAULT_BATCH_SIZE w w' H).
Defined.

(** The first read fails on the locked database; the same read made again
    reaches the repository and returns. *)
Lemma cached_failure_not_remembered_witness :
  let w := populated_world in
  let e := Exception "OperationalError" "database is locked" in
  let w' := log_event (EvRepo (OpGetById (VInt 1))) w in
  get_city Faulty.locked Demo.facade [VInt 1] [] w = (Raise e, w')
  /\ caches w' = caches w
  /\ fst (get_city Faulty.locked Demo.facade [VInt 1] [] w') =
     Ok (ROptRecord (Some Demo.paris))
  /\ new_events w' (snd (get_city Faulty.locked Demo.facade [VInt 1] [] w')) =
     [EvRepo (OpGetById (VInt 1))].
Proof.
  intros w e w'.
  assert (H : get_city Faulty.locked Demo.facade [VInt 1] [] w =
              (Raise e, w')) by reflexivity.
  split; [exact H |].
  destruct (@cached_failure_not_remembered _ Faulty.locked MGetCity
              Demo.facade [VInt 1] [] w e w' H)
    as (C & _ & [(Hb & _) | (bound & op & Hb & Hop & _ & _ & Hfst & Hev)]).
  - discriminate Hb.
  - split; [exact C |].
    assert (Hbound : bound = [VInt 1])
      by (change (Some [VInt 1] = Some bound) in Hb; congruence).
    rewrite Hbound in Hop.
    assert (Hopeq : op = OpGetById (VInt 1))
      by (change (Some (OpGetById (VInt 1)) = Some op) in Hop; congruence).
    rewrite Hopeq in Hfst, Hev.
    split; [exact Hfst | exact Hev].
Defined.

(** A search on the empty table is cached; the import fills the table, and
    the same search still returns the empty result, although the repository
    would find the city now. *)
Lemma cached_result_outlives_other_calls_witness :
  let w := empty_world in
  let args := [VStr "Paris"] in
  let v := RRecords [] in
  let w1 := snd (search_cities Demo.backend Demo.facade args [] w) in
  let calls := [CallImport Demo.facade None DEFAULT_BATCH_SIZE] in
  let w2 := run Demo.backend calls w1 in
  search_cities Demo.backend Demo.facade args [] w = (Ok v, w1)
  /\ forallb (fun c => negb (reads_method MSearchCities c)) calls = true
  /\ fst (call_method Demo.backend MSearchCities Demo.facade args [] w2) =
     Ok (RRecords [Demo.paris])
  /\ exists w3,
       search_cities Demo.backend Demo.facade args [] w2 = (Ok v, w3)
       /\ new_events w2 w3 = [].
Proof.
  intros w args v w1 calls w2.
  assert (H : search_cities Demo.backend Demo.facade args [] w = (Ok v, w1))
    by reflexivity.
  assert (Hc : forallb (fun c => negb (reads_method MSearchCities c)) calls =
               true) by reflexivity.
  split; [exact H |]. split; [exact Hc |]. split; [reflexivity |].
  destruct (@cached_result_outlives_other_calls _ Demo.backend MSearchCities
              Demo.facade args [] w v w1 calls H Hc)
    as (_ & w3 & H3 & Hev & _).
  exists w3. split; [exact H3 | exact Hev].
Defined.

Lemma get_countries_serves_one_instance_witness :
  let a := Demo.facade in
  let b := mkCityData 1 (Some ("sqlite:///cities.db", false)) (Some false) in
  let w := populated_world in
  let v := RStrings ["France"; "Switzerland"] in
  let w1 := snd (get_countries Demo.backend a [] [] w) in
  let w2 := snd (get_countries Demo.backend b [] [] w1) in
  List.length (caches w MGetCountries) <= 1
  /\ self_id a <> self_id b
  /\ get_countries Demo.backend a [] [] w = (Ok v, w1)
  /\ get_countries Demo.backend b [] [] w1 = (Ok v, w2)
  /\ caches w2 MGetCountries = [(make_key 1 [] [], v)]
  /\ new_events w2 (snd (get_countries Demo.backend a [] [] w2)) =
     [EvRepo OpGetCountries].
Proof.
  intros a b w v w1 w2.
  assert (Hl : List.length (caches w MGetCountries) <= 1)
    by (apply Nat.le_0_l).
  assert (Hab : self_id a <> self_id b) by discriminate.
  assert (Ha : get_countries Demo.backend a [] [] w = (Ok v, w1))
    by reflexivity.
  assert (Hb : get_countries Demo.backend b [] [] w1 = (Ok v, w2))
    by reflexivity.
  split; [exact Hl |]. split; [exact Hab |]. split; [exact Ha |].
  split; [exact Hb |].
  destruct (@get_countries_serves_one_instance _ Demo.backend a b w v v w1 w2
              Hl Hab Ha Hb) as (_ & Cb & _ & Hev).
  split; [exact Cb | exact Hev].
Defined.

(** [get_city()] without the identifier, after a few calls. *)
Lemma ill_formed_call_raises_witness :
  let calls :=
    [CallCached MGetCity Demo.facade [VInt 1] [];
     CallImport Demo.facade None DEFAULT_BATCH_SIZE] in
  let w := run Demo.backend calls (initial_world Demo.populated_store None) in
  bind_args (signature MGetCity) [] [] = None
  /\ get_city Demo.backend Demo.facade [] [] w = (Raise TypeError, w).
Proof.
  intros calls w.
  assert (Hb : bind_args (signature MGetCity) [] [] = None) by reflexivity.
  split; [exact Hb |].
  exact (proj2 (@ill_formed_call_raises _ Demo.backend Demo.populated_store
                  None calls MGetCity Demo.facade [] [] Hb)).
Defined.

(** The body returns the city, the close fails: the block raises the error
    of the close. *)
Lemma with_block_of_constructed_witness :
  let w := populated_world in
  let self :=
    mkCityData 0 (Some ("sqlite:///cities.db", false)) (Some false) in
  let w0 := snd (init Faulty.stuck (Some "sqlite:///cities.db") false w) in
  let body := fun c : CityData => get_city Faulty.stuck c [VInt 1] [] in
  init Faulty.stuck (Some "sqlite:///cities.db") false w = (Ok self, w0)
  /\ fst (body self w0) = Ok (ROptRecord (Some Demo.paris))
  /\ fst (with_block Faulty.stuck self body w0) =
     Raise (Exception "OperationalError" "cannot close the connection")
  /\ trace (snd (with_block Faulty.stuck self body w0)) =
     trace (snd (body self w0)) ++ [EvDbClose].
Proof.
  intros w self w0 body.
  assert (H : init Faulty.stuck (Some "sqlite:///cities.db") false w =
              (Ok self, w0)) by (vm_compute; reflexivity).
  split; [exact H |]. split; [vm_compute; reflexivity |].
  destruct (proj2 (@with_block_of_constructed _ Faulty.stuck
                     (Some "sqlite:///cities.db") false w self w0 H
                     RetVal body w0) eq_refl) as (T & R).
  split; [exact R | exact T].
Defined.

Lemma safe_get_joined_keys_witness :
  let city := JDict [("name", JAtom (VStr "New York"))] in
  let data := JDict [("user", JDict [("address", JDict [("city", city)])])] in
  let keys := ["user"; "address"; "city"; "name"] in
  keys <> [] /\ forallb no_dot keys = true
  /\ safe_get data "user.address.city.name" (JAtom VNone) =
     JAtom (VStr "New York").
Proof.
  intros city data keys.
  assert (Hne : keys <> []) by discriminate.
  assert (Hd : forallb no_dot keys = true) by reflexivity.
  split; [exact Hne |]. split; [exact Hd |].
  exact (@safe_get_joined_keys data keys (JAtom VNone) Hne Hd).
Defined.

Lemma safe_get_dotted_key_unreachable_witness :
  let v := JAtom (VStr "1.0") in
  no_dot "api.version" = false
  /\ safe_get (JDict [("api.version", v)]) "api.version" (JAtom VNone) =
     JAtom VNone.
Proof.
  intros v.
  assert (Hk : no_dot "api.version" = false) by reflexivity.
  split; [exact Hk |].
  exact (@safe_get_dotted_key_unreachable "api.version" v [] "api.version"
           (JAtom VNone) Hk).
Defined.

Lemma issue_url_well_formed_witness :
  let url :=
    issue_url "ValueError" "a&b=c d?" "Traceback #1" (Some "load & parse") in
  url_char "&" = false /\ count_char "&" url = 1.
Proof.
  intros url.
  assert (Hc : url_char "&" = false) by reflexivity.
  split; [exact Hc |].
  exact (proj1 (issue_url_well_formed "ValueError" "a&b=c d?" "Traceback #1"
                  (Some "load & parse")) "&"%char Hc).
Defined.

(** Two facades over one database: the second asks the repository for the
    city the first has just fetched. *)
Lemma cached_results_per_instance_witness :
  let a := Demo.facade in
  let b := mkCityData 1 (Some ("sqlite:///cities.db", false)) (Some false) in
  let w := populated_world in
  let w1 := snd (get_city Demo.backend a [VInt 1] [] w) in
  self_id a <> self_id b
  /\ bind_args (signature MGetCity) [VInt 1] [] = Some [VInt 1]
  /\ cache_find (make_key (self_id b) [VInt 1] []) (caches w MGetCity) = None
  /\ new_events w1 (snd (get_city Demo.backend b [VInt 1] [] w1)) =
     [EvRepo (OpGetById (VInt 1))].
Proof.
  intros a b w w1.
  assert (Hab : self_id a <> self_id b) by discriminate.
  assert (Hb : bind_args (signature MGetCity) [VInt 1] [] = Some [VInt 1])
    by reflexivity.
  assert (F : cache_find (make_key (self_id b) [VInt 1] [])
                (caches w MGetCity) = None) by reflexivity.
  split; [exact Hab |]. split; [exact Hb |]. split; [exact F |].
  destruct (@cached_results_per_instance _ Demo.backend MGetCity a b
              [VInt 1] [] [VInt 1] [] [VInt 1] w Hab Hb F)
    as (op & Hop & _ & Hev).
  assert (Hopeq : op = OpGetById (VInt 1))
    by (change (Some (OpGetById (VInt 1)) = Some op) in Hop; congruence).
  rewrite Hopeq in Hev. exact Hev.
Defined.
